(** * Gravitational N-body integrator (n-body-modelling-2D.py)

    A shallow embedding of the 2-D N-body core: the configuration loader
    ([load_body]), the initial-condition assembly ([set_initial]), the force
    field evaluator ([n_body_func]) and the trajectory driver ([calc_orbits]),
    followed by the properties the specification states about them.

    Numbers.  The program computes with numpy [float64] scalars.  They are
    modelled by [num]: exact real arithmetic on finite values, extended with
    the IEEE-754 special values (the two infinities and NaN) and their
    propagation rules.  Rounding, overflow and the sign of zero are abstracted
    away; division by zero and invalid operations are kept, because that is
    what the specification talks about.  Where a statement depends on the
    rounding or the range of [float64], the evaluator and the output grid
    are also given in binary64 itself ([Float64]).

    Exceptions.  Python exceptions are modelled by the error monad [result].

    The ODE stepper ([scipy.integrate.ode], integrator [dop853]) is an external
    library; it is taken as a parameter through the record [ode_api]. *)

From Stdlib Require Import Reals Lra ZArith List Lia.
From Stdlib Require SpecFloat.
From stdpp Require Import base option list gmap strings.

Set Default Proof Using "Type".

(** ** Python exceptions and the error monad *)

Inductive exn : Type :=
  | IndexError
  | ValueError
  | TypeError
  | KeyError
  | Exception (message : string).

Inductive result (A : Type) : Type :=
  | Ok (a : A)
  | Raise (e : exn).
Arguments Ok {A} a.
Arguments Raise {A} e.

(** [result] is a monad; the instances give it stdpp's [x ← m; k] notation. *)
#[global] Instance result_ret : MRet result := λ A a, Ok a.
#[global] Instance result_bind : MBind result := λ A B k m,
  match m with
  | Ok a => k a
  | Raise e => Raise e
  end.

Definition of_option {A} (e : exn) (o : option A) : result A :=
  match o with
  | Some a => Ok a
  | None => Raise e
  end.

(** A [for] loop over a list whose body may raise and threads a state. *)
Fixpoint for_each {A St} (body : St → A → result St) (xs : list A) (s : St)
  : result St :=
  match xs with
  | [] => Ok s
  | x :: xs' => s' ← body s x; for_each body xs' s'
  end.

(** Python's [enumerate]. *)
Definition enumerate {A} (xs : list A) : list (nat * A) :=
  zip (seq 0 (length xs)) xs.

(** ** Numbers: reals extended with the IEEE special values *)

Inductive num : Type :=
  | Fin (r : R)
  | PInf
  | NInf
  | NaN.

Definition is_finite (a : num) : Prop :=
  match a with Fin _ => True | _ => False end.

Definition to_R (a : num) : R :=
  match a with Fin r => r | _ => 0%R end.

Definition neg (a : num) : num :=
  match a with
  | Fin r => Fin (- r)
  | PInf => NInf
  | NInf => PInf
  | NaN => NaN
  end.

Definition add (a b : num) : num :=
  match a, b with
  | NaN, _ | _, NaN => NaN
  | Fin x, Fin y => Fin (x + y)
  | PInf, NInf | NInf, PInf => NaN
  | PInf, _ | _, PInf => PInf
  | NInf, _ | _, NInf => NInf
  end.

Definition sub (a b : num) : num := add a (neg b).

(** Sign of a real, decided by trichotomy. *)
Definition Rsign (r : R) : comparison :=
  match total_order_T r 0 with
  | inleft (left _) => Lt
  | inleft (right _) => Eq
  | inright _ => Gt
  end.

(** Infinity times a finite value: the sign follows the sign rule, and
    [inf * 0] is invalid. *)
Definition inf_times (positive : bool) (r : R) : num :=
  match Rsign r with
  | Eq => NaN
  | Gt => if positive then PInf else NInf
  | Lt => if positive then NInf else PInf
  end.

Definition mul (a b : num) : num :=
  match a, b with
  | NaN, _ | _, NaN => NaN
  | Fin x, Fin y => Fin (x * y)
  | PInf, Fin y => inf_times true y
  | NInf, Fin y => inf_times false y
  | Fin x, PInf => inf_times true x
  | Fin x, NInf => inf_times false x
  | PInf, PInf | NInf, NInf => PInf
  | PInf, NInf | NInf, PInf => NInf
  end.

(** [a ** 2] *)
Definition pow_2 (a : num) : num := mul a a.

(** [a ** 0.5]: the square root; a negative base is invalid, and
    [(-inf) ** 0.5] is [+inf] as in C's [pow]. *)
Definition pow_half (a : num) : num :=
  match a with
  | Fin r => match Rsign r with
             | Lt => NaN
             | _ => Fin (sqrt r)
             end
  | PInf | NInf => PInf
  | NaN => NaN
  end.

(** [a ** (-3)]: on a numpy scalar a zero base gives [inf] (with a
    [RuntimeWarning]), it does not raise. *)
Definition pow_neg3 (a : num) : num :=
  match a with
  | Fin r => match Rsign r with
             | Eq => PInf
             | _ => Fin (/ (r * r * r))
             end
  | PInf | NInf => Fin 0
  | NaN => NaN
  end.

(** ** numpy arrays

    A one-dimensional [ndarray] is a list; reading or writing one element
    outside of it raises [IndexError]. *)

Definition np_zeros (n : nat) : list num := replicate n (Fin 0).

Definition getitem {A} (a : list A) (k : nat) : result A :=
  of_option IndexError (a !! k).

Definition setitem {A} (a : list A) (k : nat) (v : A) : result (list A) :=
  if decide (k < length a) then Ok (<[k := v]> a) else Raise IndexError.

(** The indices selected by the slice [start:stop:step] (all three
    non-negative, [step] positive). *)
Definition slice_range (start stop step : nat) : list nat :=
  map (λ k, start + k * step) (seq 0 ((stop - start + (step - 1)) / step)).

(** [a[start:stop:step]]; a slice is clipped to the array, it never raises. *)
Definition getslice {A} (a : list A) (start stop step : nat) : list A :=
  omap (λ k, a !! k) (slice_range start (stop `min` length a) step).

(** Assignment broadcasts its right-hand side to the shape of the target:
    a source of the same length is taken as it is, a source of length one
    is repeated, anything else is a [ValueError]. *)
Definition broadcast_to {A} (k : nat) (src : list A) : result (list A) :=
  if decide (length src = k) then Ok src
  else match src with
       | [v] => Ok (replicate k v)
       | _ => Raise ValueError
       end.

Definition assign_at {A} (a : list A) (kv : nat * A) : list A :=
  <[kv.1 := kv.2]> a.

(** [a[start:stop:step] = src] *)
Definition setslice {A} (a : list A) (start stop step : nat) (src : list A)
  : result (list A) :=
  let idx := slice_range start (stop `min` length a) step in
  vals ← broadcast_to (length idx) src;
  Ok (foldl assign_at a (zip idx vals)).

(** A two-dimensional array of shape [(nrows, ncols)]. *)
Record ndarray2 : Type := mk_ndarray2 {
  nrows : nat;
  ncols : nat;
  rows : list (list num)
}.

Definition np_zeros2 (n m : nat) : ndarray2 :=
  {| nrows := n; ncols := m; rows := replicate n (np_zeros m) |}.

(** [y[i, :] = src] *)
Definition setrow (y : ndarray2) (i : nat) (src : list num) : result ndarray2 :=
  if decide (i < nrows y) then
    vals ← broadcast_to (ncols y) src;
    Ok {| nrows := nrows y; ncols := ncols y; rows := <[i := vals]> (rows y) |}
  else Raise IndexError.

(** [np.linspace(start, stop, num)] with the default [endpoint=True]: [num]
    evenly spaced samples, the last one set to [stop] itself.  A negative
    [num] is a [ValueError].  Times are exact reals. *)
Definition time : Type := R.
Bind Scope R_scope with time.

Definition linspace_step (start stop : time) (n : nat) : R :=
  ((stop - start) / INR (n - 1))%R.

Definition np_linspace (start stop : time) (num : Z) : result (list time) :=
  if decide (num < 0)%Z then Raise ValueError
  else
    let n := Z.to_nat num in
    let step := linspace_step start stop n in
    let y := map (λ k, (INR k * step + start)%R) (seq 0 n) in
    Ok (if decide (1 < n) then <[n - 1 := stop]> y else y).

(** ** The program *)

(** [class Body]: the fields, and [__init__] with the parameter order of the
    source, [(x, vx, y, vy, mass, name)].  Python does not type the fields;
    [V] is the type of the values stored in the five numeric fields and [N]
    the type of the name. *)
Module Body.
Record t (V N : Type) : Type := Make {
  x : V;
  y : V;
  vx : V;
  vy : V;
  mass : V;
  name : N
}.
Arguments Make {V N}.
Arguments x {V N}.
Arguments y {V N}.
Arguments vx {V N}.
Arguments vy {V N}.
Arguments mass {V N}.
Arguments name {V N}.

Definition init {V N} (x vx y vy mass : V) (name : N) : t V N :=
  {| x := x; y := y; vx := vx; vy := vy; mass := mass; name := name |}.
End Body.

Definition required_keys : list string :=
  ["x"; "y"; "vx"; "vy"; "mass"; "name"]%string.

(** The message of the exception [load_body] raises for a missing key. *)
Definition missing_value (key : string) : exn :=
  Exception ("'" +:+ key +:+ "' value missing, unable to load body")%string.

(** [load_body(b)].  [b] is a parsed JSON object; [J] is the type of JSON
    values.  The [print] of the body's name is left out here, as a [print]
    that returns; [Stdout.load_body] below has it. *)
Definition load_body {J} (b : gmap string J) : result (Body.t J J) :=
  _ ← for_each
        (λ (_ : unit) key,
           if decide (is_Some (b !! key)) then Ok ()
           else Raise (missing_value key))
        required_keys ();
  x ← of_option KeyError (b !! "x"%string);
  y ← of_option KeyError (b !! "y"%string);
  vx ← of_option KeyError (b !! "vx"%string);
  vy ← of_option KeyError (b !! "vy"%string);
  name ← of_option KeyError (b !! "name"%string);
  mass ← of_option KeyError (b !! "mass"%string);
  Ok (Body.init x y vx vy mass name).

(** [load_bodies], from the parsed configuration (a JSON array). *)
Definition load_bodies {J} (config : list (gmap string J))
  : result (list (Body.t J J)) :=
  for_each (λ bodies b, body ← load_body b; Ok (bodies ++ [body])) config [].

(** [set_initial(bodies)] *)
Definition set_initial {V N} (bodies : list (Body.t V N)) : list V :=
  foldl
    (λ initial body,
       initial ++ [Body.x body; Body.vx body; Body.y body; Body.vy body])
    [] bodies.

(** The gravitational constant, [G = 1]. *)
Definition G : num := Fin 1.

(** The body of the inner loop of [n_body_func]: the contribution of
    [other_body] (index [j]) to the acceleration of body [i], added to the
    accumulators [(dx_vel_body, dy_vel_body)]. *)
Definition inner_body {N} (pos_vel_array : list num) (i : nat)
    (x_pos_body y_pos_body : num)
    (acc : num * num) (jb : nat * Body.t num N) : result (num * num) :=
  let '(dx_vel_body, dy_vel_body) := acc in
  let '(j, other_body) := jb in
  if decide (i ≠ j) then
    x_pos_other_body ← getitem pos_vel_array (j * 4);
    y_pos_other_body ← getitem pos_vel_array (j * 4 + 2);
    let mass_other_body := Body.mass other_body in
    let r := pow_half (add (pow_2 (sub x_pos_body x_pos_other_body))
                           (pow_2 (sub y_pos_body y_pos_other_body))) in
    Ok (add dx_vel_body
          (mul (mul (mul (neg G) mass_other_body)
                    (sub x_pos_body x_pos_other_body))
               (pow_neg3 r)),
        add dy_vel_body
          (mul (mul (mul (neg G) mass_other_body)
                    (sub y_pos_body y_pos_other_body))
               (pow_neg3 r)))
  else Ok (dx_vel_body, dy_vel_body).

(** The body of the outer loop: the acceleration of body [i] is accumulated
    over all bodies and stored in the derivative array. *)
Definition outer_body {N} (pos_vel_array : list num)
    (bodies : list (Body.t num N))
    (dpos_vel_array : list num) (ib : nat * Body.t num N)
  : result (list num) :=
  let i := ib.1 in
  x_pos_body ← getitem pos_vel_array (i * 4);
  y_pos_body ← getitem pos_vel_array (i * 4 + 2);
  acc ← for_each (inner_body pos_vel_array i x_pos_body y_pos_body)
        (enumerate bodies) (Fin 0, Fin 0);
  d ← setitem dpos_vel_array (i * 4 + 1) acc.1;
  setitem d (i * 4 + 3) acc.2.

(** [n_body_func(t, pos_vel_array, bodies)] *)
Definition n_body_func {N} (t : time) (pos_vel_array : list num)
    (bodies : list (Body.t num N)) : result (list num) :=
  let dpos_vel_array := np_zeros (4 * length bodies) in
  d ← setslice dpos_vel_array 0 (length dpos_vel_array) 4
        (getslice pos_vel_array 1 (length pos_vel_array) 4);
  d ← setslice d 2 (length d) 4
        (getslice pos_vel_array 3 (length pos_vel_array) 4);
  for_each (outer_body pos_vel_array bodies) (enumerate bodies) d.

(** The right-hand side handed to the ODE solver: [f(t, y, bodies)]. *)
Definition rhs (N : Type) : Type :=
  time → list num → list (Body.t num N) → result (list num).

(** [scipy.integrate.ode], as far as [calc_orbits] uses it.  [ode_setup] is
    the chain [ode(f).set_integrator(name, rtol, atol)
    .set_initial_value(y0, t0).set_f_params(bodies)]; [ode_integrate] is
    [integrator.integrate(t)], which returns the state at [t] and updates
    the solver object, or raises; [ode_successful] is
    [integrator.successful()], the flag the solver clears (with a warning)
    when a step failed. *)
Record ode_api (N : Type) : Type := {
  ode_state : Type;
  ode_setup : rhs N → string → R → R → list num → time →
              list (Body.t num N) → ode_state;
  ode_integrate : ode_state → time → result (list num * ode_state);
  ode_successful : ode_state → bool
}.
Arguments ode_state {N}.
Arguments ode_setup {N}.
Arguments ode_integrate {N}.
Arguments ode_successful {N}.

Definition rtol : R := (/ 10 ^ 6)%R.
Definition atol : R := (/ 10 ^ 10)%R.

(** The body of the loop of [calc_orbits]:
    [y[i, :] = integrator.integrate(t[i])]. *)
Definition calc_orbits_step {N} (ode : ode_api N) (t : list time)
    (st : ndarray2 * ode_state ode) (i : nat)
  : result (ndarray2 * ode_state ode) :=
  ti ← getitem t i;
  out ← ode_integrate ode st.2 ti;
  y ← setrow st.1 i out.1;
  Ok (y, out.2).

(** [calc_orbits(bodies, n_body_func, t0, t1, dt)] *)
Definition calc_orbits {N} (ode : ode_api N) (bodies : list (Body.t num N))
    (n_body_func : rhs N) (t0 t1 : time) (dt : Z) : result ndarray2 :=
  let initial := set_initial bodies in
  t ← np_linspace t0 t1 dt;
  let y := np_zeros2 (length t) (length bodies * 4) in
  y ← setrow y 0 initial;
  let integrator :=
    ode_setup ode n_body_func "dop853" rtol atol initial t0 bodies in
  st ← for_each (calc_orbits_step ode t) (seq 1 (length t - 1))
         (y, integrator);
  Ok st.1.

(** [store_orbits]: the column labels of the exported table.  A fresh
    [DataFrame] labels its columns [0 .. ncols-1]; the loop renames the four
    columns of each body; [to_csv(index=None)] writes these labels as the
    header and no index column. *)
Inductive label : Type :=
  | LInt (k : nat)
  | LStr (s : string).

Definition rename (rename_spec : gmap nat string) (columns : list label)
  : list label :=
  map (λ c, match c with
            | LInt k => match rename_spec !! k with
                        | Some s => LStr s
                        | None => c
                        end
            | LStr _ => c
            end) columns.

(** The dict [rename_spec] built for body [i]. *)
Definition rename_spec (i : nat) (body_name : string) : gmap nat string :=
  <[i * 4 + 3 := (body_name +:+ "_vy")%string]>
  (<[i * 4 + 2 := (body_name +:+ "_y")%string]>
  (<[i * 4 + 1 := (body_name +:+ "_vx")%string]>
  (<[i * 4 := (body_name +:+ "_x")%string]> ∅))).

(** The body of the loop of [store_orbits]. *)
Definition store_orbits_body (bodies : list (Body.t num string))
    (orbits_df : list label) (i : nat) : result (list label) :=
  body ← getitem bodies i;
  let body_name := Body.name body in
  Ok (rename (rename_spec i body_name) orbits_df).

Definition store_orbits_columns (bodies : list (Body.t num string))
    (orbit_paths : ndarray2) : result (list label) :=
  let orbits_df := map LInt (seq 0 (ncols orbit_paths)) in
  for_each (store_orbits_body bodies) (seq 0 (length bodies)) orbits_df.

(** ** The force field evaluator on a store of objects

    To state what [n_body_func] may and may not change, the same function is
    also written over a store: arrays, lists and [Body] objects live in a
    heap and are passed by reference, as in Python.  [np.zeros] allocates a
    fresh array; element and slice assignments update the array they are
    applied to, in place. *)
Module Heap.

Definition loc : Type := nat.

Record heap (N : Type) : Type := mk_heap {
  arrays : gmap loc (list num);
  lists : gmap loc (list loc);
  objects : gmap loc (Body.t num N)
}.
Arguments mk_heap {N}.
Arguments arrays {N}.
Arguments lists {N}.
Arguments objects {N}.

Definition set_arrays {N} (h : heap N) (a : gmap loc (list num)) : heap N :=
  {| arrays := a; lists := lists h; objects := objects h |}.

(** Computations that read and write the store and may raise. *)
Definition M (N A : Type) : Type := heap N → result (A * heap N).

#[global] Instance M_ret N : MRet (M N) := λ A a h, Ok (a, h).
#[global] Instance M_bind N : MBind (M N) := λ A B k m h,
  match m h with
  | Ok (a, h') => k a h'
  | Raise e => Raise e
  end.

Definition lift {N A} (r : result A) : M N A :=
  λ h, match r with Ok a => Ok (a, h) | Raise e => Raise e end.

Definition read_array {N} (a : loc) : M N (list num) :=
  λ h, lift (of_option TypeError (arrays h !! a)) h.

Definition write_array {N} (a : loc) (v : list num) : M N unit :=
  λ h, Ok ((), set_arrays h (<[a := v]> (arrays h))).

(** [np.zeros(n)]: a new array at an address not in use. *)
Definition np_zeros {N} (n : nat) : M N loc :=
  λ h, let a := fresh (dom (arrays h)) in
       Ok (a, set_arrays h (<[a := replicate n (Fin 0)]> (arrays h))).

Definition len_array {N} (a : loc) : M N nat :=
  v ← read_array a; mret (length v).

Definition getitem {N} (a : loc) (k : nat) : M N num :=
  v ← read_array a; lift (of_option IndexError (v !! k)).

Definition setitem {N} (a : loc) (k : nat) (x : num) : M N unit :=
  v ← read_array a;
  if decide (k < length v) then write_array a (<[k := x]> v)
  else lift (Raise IndexError).

Definition getslice {N} (a : loc) (start stop step : nat) : M N (list num) :=
  v ← read_array a;
  mret (omap (λ k, v !! k) (slice_range start (stop `min` length v) step)).

Definition setslice {N} (a : loc) (start stop step : nat) (src : list num)
  : M N unit :=
  v ← read_array a;
  let idx := slice_range start (stop `min` length v) step in
  vals ← lift (broadcast_to (length idx) src);
  write_array a (foldl assign_at v (zip idx vals)).

(** [enumerate(bodies)] on a list of references. *)
Definition enumerate_list {N} (l : loc) : M N (list (nat * loc)) :=
  λ h, lift (v ← of_option TypeError (lists h !! l); Ok (enumerate v)) h.

Definition len_list {N} (l : loc) : M N nat :=
  λ h, lift (v ← of_option TypeError (lists h !! l); Ok (length v)) h.

(** [other_body.mass] *)
Definition get_mass {N} (o : loc) : M N num :=
  λ h, lift (b ← of_option TypeError (objects h !! o); Ok (Body.mass b)) h.

Fixpoint for_each {N A St} (body : St → A → M N St) (xs : list A) (s : St)
  : M N St :=
  match xs with
  | [] => mret s
  | x :: xs' => s' ← body s x; for_each body xs' s'
  end.

Definition inner_body {N} (pos_vel_array : loc) (i : nat)
    (x_pos_body y_pos_body : num)
    (acc : num * num) (jb : nat * loc) : M N (num * num) :=
  let '(dx_vel_body, dy_vel_body) := acc in
  let '(j, other_body) := jb in
  if decide (i ≠ j) then
    x_pos_other_body ← getitem pos_vel_array (j * 4);
    y_pos_other_body ← getitem pos_vel_array (j * 4 + 2);
    mass_other_body ← get_mass other_body;
    let r := pow_half (add (pow_2 (sub x_pos_body x_pos_other_body))
                           (pow_2 (sub y_pos_body y_pos_other_body))) in
    mret (add dx_vel_body
            (mul (mul (mul (neg G) mass_other_body)
                      (sub x_pos_body x_pos_other_body))
                 (pow_neg3 r)),
          add dy_vel_body
            (mul (mul (mul (neg G) mass_other_body)
                      (sub y_pos_body y_pos_other_body))
                 (pow_neg3 r)))
  else mret (dx_vel_body, dy_vel_body).

Definition outer_body {N} (pos_vel_array bodies dpos_vel_array : loc)
    (_ : unit) (ib : nat * loc) : M N unit :=
  let i := ib.1 in
  x_pos_body ← getitem pos_vel_array (i * 4);
  y_pos_body ← getitem pos_vel_array (i * 4 + 2);
  others ← enumerate_list bodies;
  acc ← for_each (inner_body pos_vel_array i x_pos_body y_pos_body)
        others (Fin 0, Fin 0);
  _ ← setitem dpos_vel_array (i * 4 + 1) acc.1;
  setitem dpos_vel_array (i * 4 + 3) acc.2.

(** [n_body_func(t, pos_vel_array, bodies)], by reference; the result is
    the address of the derivative array. *)
Definition n_body_func {N} (t : time) (pos_vel_array bodies : loc)
  : M N loc :=
  n ← len_list bodies;
  dpos_vel_array ← np_zeros (4 * n);
  ld ← len_array dpos_vel_array;
  lp ← len_array pos_vel_array;
  src ← getslice pos_vel_array 1 lp 4;
  _ ← setslice dpos_vel_array 0 ld 4 src;
  ld ← len_array dpos_vel_array;
  lp ← len_array pos_vel_array;
  src ← getslice pos_vel_array 3 lp 4;
  _ ← setslice dpos_vel_array 2 ld 4 src;
  todo ← enumerate_list bodies;
  _ ← for_each (outer_body pos_vel_array bodies dpos_vel_array) todo ();
  mret dpos_vel_array.

(** The [Body] objects a list of references denotes in a store. *)
Definition deref_bodies {N} (h : heap N) (l : loc)
  : option (list (Body.t num N)) :=
  refs ← lists h !! l; mapM (λ o, objects h !! o) refs.

(** The store [h] with the array at [d] set to [v]. *)
Definition upd {N} (h : heap N) (d : loc) (v : list num) : heap N :=
  set_arrays h (<[d := v]> (arrays h)).

(** The outcome of a write to the array at [d], given the outcome [r] of
    the same operation on the contents of [d]. *)
Definition stores {N} (h : heap N) (d : loc) (r : result (list num))
  : result (unit * heap N) :=
  match r with
  | Ok v' => Ok ((), upd h d v')
  | Raise e => Raise e
  end.

(** What a call returned, as a value: the contents of the array at the
    address it returned, or the exception it raised. *)
Definition returned {N} (r : result (loc * heap N)) : result (list num) :=
  match r with
  | Ok (d, h') => of_option TypeError (arrays h' !! d)
  | Raise e => Raise e
  end.

End Heap.

(** ** Vocabulary of the specification *)

(** Component [k] of a State Vector, and the mass of body [j]. *)
Definition comp (pos_vel_array : list num) (k : nat) : num :=
  default (Fin 0) (pos_vel_array !! k).

Definition mass_of {N} (bodies : list (Body.t num N)) (j : nat) : num :=
  default (Fin 0) (Body.mass <$> bodies !! j).

(** A State Vector for [n] bodies: [4 * n] components, all of them reals. *)
Definition state_vector (n : nat) (pos_vel_array : list num) : Prop :=
  length pos_vel_array = 4 * n ∧ Forall is_finite pos_vel_array.

Definition real_masses {N} (bodies : list (Body.t num N)) : Prop :=
  Forall (λ b, is_finite (Body.mass b)) bodies.

Definition positive_masses {N} (bodies : list (Body.t num N)) : Prop :=
  Forall (λ b, ∃ m : R, Body.mass b = Fin m ∧ (0 < m)%R) bodies.

(** Bodies [i] and [j] are at the same place. *)
Definition coincide (pos_vel_array : list num) (i j : nat) : Prop :=
  comp pos_vel_array (4 * i) = comp pos_vel_array (4 * j) ∧
  comp pos_vel_array (4 * i + 2) = comp pos_vel_array (4 * j + 2).

Definition pairwise_distinct (n : nat) (pos_vel_array : list num) : Prop :=
  ∀ i j, i < n → j < n → i ≠ j → ¬ coincide pos_vel_array i j.

Definition Rsum (l : list R) : R := foldr Rplus 0%R l.

(** Newton's law as the specification writes it: the acceleration of body
    [i] is the sum over every other body [j] of
    [-G * mass_j * (pos_i - pos_j) / |pos_i - pos_j|^3], with [G = 1].
    [c] is 0 for the x direction and 2 for the y direction. *)
Definition distance (pos_vel_array : list num) (i j : nat) : R :=
  sqrt ((to_R (comp pos_vel_array (4 * i)) - to_R (comp pos_vel_array (4 * j))) ^ 2 +
        (to_R (comp pos_vel_array (4 * i + 2)) - to_R (comp pos_vel_array (4 * j + 2))) ^ 2).

Definition newton_term {N} (c : nat) (pos_vel_array : list num)
    (bodies : list (Body.t num N)) (i j : nat) : R :=
  (- 1 * to_R (mass_of bodies j) *
   (to_R (comp pos_vel_array (4 * i + c)) - to_R (comp pos_vel_array (4 * j + c)))
   / distance pos_vel_array i j ^ 3)%R.

Definition newton_accel {N} (c : nat) (pos_vel_array : list num)
    (bodies : list (Body.t num N)) (i : nat) : R :=
  Rsum (map (newton_term c pos_vel_array bodies i)
            (filter (λ j, j ≠ i) (seq 0 (length bodies)))).

(** Rate of change of the total momentum in direction [c] (1 for x, 3 for
    y) read off a derivative array [d]: the mass-weighted sum of the
    acceleration components. *)
Definition momentum_rate {N} (c : nat) (bodies : list (Body.t num N))
    (d : list num) : num :=
  foldl (λ s i, add s (mul (mass_of bodies i) (comp d (4 * i + c))))
        (Fin 0) (seq 0 (length bodies)).

(** What one pass of the inner loop adds for body [j], as a value. *)
Definition pull {N} (c : nat) (pos_vel_array : list num)
    (bodies : list (Body.t num N)) (i j : nat) : num :=
  mul (mul (mul (neg G) (mass_of bodies j))
           (sub (comp pos_vel_array (i * 4 + c)) (comp pos_vel_array (j * 4 + c))))
      (pow_neg3
         (pow_half
            (add (pow_2 (sub (comp pos_vel_array (i * 4)) (comp pos_vel_array (j * 4))))
                 (pow_2 (sub (comp pos_vel_array (i * 4 + 2))
                             (comp pos_vel_array (j * 4 + 2))))))).

Definition inner_step {N} (pos_vel_array : list num)
    (bodies : list (Body.t num N)) (i : nat) (acc : num * num) (j : nat)
  : num * num :=
  if decide (i ≠ j)
  then (add acc.1 (pull 0 pos_vel_array bodies i j),
        add acc.2 (pull 2 pos_vel_array bodies i j))
  else acc.

Definition accel {N} (pos_vel_array : list num)
    (bodies : list (Body.t num N)) (i : nat) : num * num :=
  foldl (inner_step pos_vel_array bodies i) (Fin 0, Fin 0)
        (seq 0 (length bodies)).

Definition outer_step {N} (pos_vel_array : list num)
    (bodies : list (Body.t num N)) (d : list num) (i : nat) : list num :=
  <[i * 4 + 3 := (accel pos_vel_array bodies i).2]>
    (<[i * 4 + 1 := (accel pos_vel_array bodies i).1]> d).

(** The derivative array [n_body_func] builds, as a value: zeros, then the
    two slice assignments, then the two element assignments per body. *)
Definition derivative {N} (pos_vel_array : list num)
    (bodies : list (Body.t num N)) : list num :=
  let n := length bodies in
  let d0 := np_zeros (4 * n) in
  let d1 := foldl (λ d k, <[0 + k * 4 := comp pos_vel_array (1 + k * 4)]> d)
                  d0 (seq 0 n) in
  let d2 := foldl (λ d k, <[2 + k * 4 := comp pos_vel_array (3 + k * 4)]> d)
                  d1 (seq 0 n) in
  foldl (outer_step pos_vel_array bodies) d2 (seq 0 n).

(** The four State Vector components of one body, in layout order. *)
Definition block {V N} (body : Body.t V N) : list V :=
  [Body.x body; Body.vx body; Body.y body; Body.vy body].

(** A parsed body has the six keys [load_body] asks for. *)
Definition has_required_keys {J} (b : gmap string J) : Prop :=
  ∀ key, key ∈ required_keys → is_Some (b !! key).

(** The calls made to the solver, as a step relation: from state [s], asked
    for the times [ts] in turn, the solver returns the states [outs] and ends
    in state [s']; no call raises. *)
Inductive ode_run {N} (ode : ode_api N)
  : ode_state ode → list time → list (list num) → ode_state ode → Prop :=
  | ode_run_nil s : ode_run ode s [] [] s
  | ode_run_cons s t out s' ts outs s'' :
      ode_integrate ode s t = Ok (out, s') →
      ode_run ode s' ts outs s'' →
      ode_run ode s (t :: ts) (out :: outs) s''.

(** The output time grid as the specification describes it: [dt] evenly
    spaced times from [t0] to [t1], consecutive ones [(t1 - t0) / (dt - 1)]
    apart. *)
Definition output_times (t0 t1 : time) (dt : Z) : list time :=
  map (λ i, (t0 + INR i * ((t1 - t0) / (IZR dt - 1)))%R) (seq 0 (Z.to_nat dt)).

(** An array with the shape of [y] and the rows [r]. *)
Definition with_rows (y : ndarray2) (r : list (list num)) : ndarray2 :=
  {| nrows := nrows y; ncols := ncols y; rows := r |}.

(** The solver states [outs] fit the rows [rs] of an array with [m] columns. *)
Definition stored (m : nat) (outs rs : list (list num)) : Prop :=
  Forall2 (λ out row, broadcast_to m out = Ok row) outs rs.

(** The same solver with another success flag. *)
Definition with_successful {N} (ode : ode_api N)
    (flag : ode_state ode → bool) : ode_api N :=
  {| ode_state := ode_state ode;
     ode_setup := ode_setup ode;
     ode_integrate := ode_integrate ode;
     ode_successful := flag |}.

(** The layout a reader of the specification expects of a trajectory row:
    the State Vector's columns plus one column for the time. *)
Definition time_column_layout {N} (bodies : list (Body.t num N))
    (y : ndarray2) : Prop :=
  Forall (λ row, length row = 4 * length bodies + 1) (rows y).

(** The header [store_orbits] gives the exported table: four names per body,
    in State Vector order. *)
Definition column_names (bodies : list (Body.t num string)) : list label :=
  concat (map (λ b, [LStr (Body.name b +:+ "_x");
                     LStr (Body.name b +:+ "_vx");
                     LStr (Body.name b +:+ "_y");
                     LStr (Body.name b +:+ "_vy")]%string) bodies).

Definition is_finite_b (a : num) : bool :=
  match a with Fin _ => true | _ => false end.

(** A stand-in for the solver, for the places that need a concrete one: one
    explicit Euler step per requested time.  Like scipy's solver object it
    does not raise when a step fails: when the right-hand side is not finite
    the step is rejected, the solver keeps the state and the time it had,
    clears its success flag and returns the state it has, so that the caller
    receives the previous state once more. *)
Module Euler.
Record state (N : Type) : Type := mk_state {
  f : rhs N;
  y : list num;
  t : time;
  f_params : list (Body.t num N);
  success : bool
}.
Arguments mk_state {N}.
Arguments f {N}.
Arguments y {N}.
Arguments t {N}.
Arguments f_params {N}.
Arguments success {N}.

Definition setup {N} (f : rhs N) (name : string) (rtol atol : R)
    (y0 : list num) (t0 : time) (f_params : list (Body.t num N)) : state N :=
  mk_state f y0 t0 f_params true.

Definition integrate {N} (s : state N) (t1 : time)
  : result (list num * state N) :=
  dy ← f s (t s) (y s) (f_params s);
  if forallb is_finite_b dy then
    let y1 := zip_with (λ a b, add a (mul (Fin (t1 - t s)) b)) (y s) dy in
    Ok (y1, mk_state (f s) y1 t1 (f_params s) (forallb is_finite_b y1))
  else Ok (y s, mk_state (f s) (y s) (t s) (f_params s) false).

Definition api (N : Type) : ode_api N :=
  {| ode_state := state N;
     ode_setup := setup;
     ode_integrate := integrate;
     ode_successful := success |}.
End Euler.

(** ** Sample inputs *)

(** Two bodies initialized at identical coordinates, and a single body. *)
Definition twins : list (Body.t num string) :=
  [Body.init (Fin 0) (Fin 0) (Fin 0) (Fin 0) (Fin 1) "a"%string;
   Body.init (Fin 0) (Fin 0) (Fin 0) (Fin 0) (Fin 1) "b"%string].

Definition lone : list (Body.t num string) :=
  [Body.init (Fin 0) (Fin 1) (Fin 0) (Fin 1) (Fin 1) "a"%string].

(** Two bodies at different places, with their State Vector. *)
Definition pair : list (Body.t num string) :=
  [Body.init (Fin 0) (Fin 0) (Fin 0) (Fin 1) (Fin 1) "a"%string;
   Body.init (Fin 1) (Fin 0) (Fin 0) (Fin 0) (Fin 2) "b"%string].

Definition pair_state : list num := set_initial pair.

(** JSON values, and a configuration of one body. *)
Inductive json : Type :=
  | JNum (z : Z)
  | JStr (s : string).

Definition config_example : list (gmap string json) :=
  [ <["x"%string := JNum 1]>
    (<["y"%string := JNum 2]>
    (<["vx"%string := JNum 3]>
    (<["vy"%string := JNum 4]>
    (<["mass"%string := JNum 5]>
    (<["name"%string := JStr "sun"]> ∅))))) ].

(** A store holding the State Vector of [lone] at address 0, the list of
    bodies at address 1 and its only body at address 2. *)
Definition heap_example : Heap.heap string :=
  {| Heap.arrays := {[ 0 := set_initial lone ]};
     Heap.lists := {[ 1 := [2] ]};
     Heap.objects := {[ 2 := Body.init (Fin 0) (Fin 1) (Fin 0) (Fin 1) (Fin 1) "a"%string ]} |}.

(** The trajectory of [lone] sampled once. *)
Definition lone_orbit : ndarray2 :=
  {| nrows := 1; ncols := 4; rows := [[Fin 0; Fin 1; Fin 0; Fin 1]] |}.

(** The State Vector with every body moved by [(a, b)]: the x components
    (index [4i]) shifted by [a], the y components (index [4i+2]) by [b], the
    velocities kept. *)
Definition translate (a b : R) (pos_vel_array : list num) : list num :=
  imap (λ k v, if decide (k mod 4 = 0) then add v (Fin a)
               else if decide (k mod 4 = 2) then add v (Fin b)
               else v) pos_vel_array.

(** [load_body] with the [print] the source makes between the key check
    and the [return].  [print name] stands for
    [print("Loaded Body: {}".format(name))]: what it writes is not modelled,
    only whether it returns or raises (a name the encoding of the standard
    output cannot express, a closed stream), and an exception it raises
    leaves [load_body]. *)
Module Stdout.
Definition load_body {J} (print : J → result ()) (b : gmap string J)
  : result (Body.t J J) :=
  _ ← for_each
        (λ (_ : unit) key,
           if decide (is_Some (b !! key)) then Ok ()
           else Raise (missing_value key))
        required_keys ();
  x ← of_option KeyError (b !! "x"%string);
  y ← of_option KeyError (b !! "y"%string);
  vx ← of_option KeyError (b !! "vx"%string);
  vy ← of_option KeyError (b !! "vy"%string);
  name ← of_option KeyError (b !! "name"%string);
  mass ← of_option KeyError (b !! "mass"%string);
  _ ← print name;
  Ok (Body.init x y vx vy mass name).
End Stdout.

(** [orbit_paths[:, k]]: column [k] of a two-dimensional array. *)
Definition getcol (orbit_paths : ndarray2) (k : nat) : result (list num) :=
  if decide (k < ncols orbit_paths)
  then Ok (map (λ row, comp row k) (rows orbit_paths))
  else Raise IndexError.

(** The body of the loop of [plot_orbits]:
    [plt.plot(orbit_paths[:, i * 4], orbit_paths[:, i * 4 + 2])]; the state
    is the list of the lines drawn so far, each the list of its abscissas and
    the list of its ordinates. *)
Definition plot_orbits_body (orbit_paths : ndarray2)
    (lines : list (list num * list num)) (i : nat)
  : result (list (list num * list num)) :=
  xs ← getcol orbit_paths (i * 4);
  ys ← getcol orbit_paths (i * 4 + 2);
  Ok (lines ++ [(xs, ys)]).

(** [plot_orbits(orbit_paths)]: the lines of the figure it shows. *)
Definition plot_orbits (orbit_paths : ndarray2)
  : result (list (list num * list num)) :=
  for_each (plot_orbits_body orbit_paths)
    (seq 0 (ncols orbit_paths / 4)) [].

(** Two more stand-ins for the solver: one returns the initial state at its
    first call and raises at every later call, the other returns a state of
    two components whatever it is asked. *)
Definition raising_ode : ode_api string :=
  {| ode_state := list num * bool;
     ode_setup := λ _ _ _ _ y0 _ _, (y0, false);
     ode_integrate := λ s _,
       if s.2 then Raise (Exception "solver") else Ok (s.1, (s.1, true));
     ode_successful := λ _, true |}.

Definition short_ode : ode_api string :=
  {| ode_state := unit;
     ode_setup := λ _ _ _ _ _ _ _, ();
     ode_integrate := λ _ _, Ok ([Fin 0; Fin 0], ());
     ode_successful := λ _, true |}.

(** The four column names [store_orbits] makes for a body. *)
Definition body_labels (b : Body.t num string) : list label :=
  [LStr (Body.name b +:+ "_x"); LStr (Body.name b +:+ "_vx");
   LStr (Body.name b +:+ "_y"); LStr (Body.name b +:+ "_vy")]%string.

(** The suffixes [store_orbits] appends to a body's name. *)
Definition suffixes : list string := ["_x"; "_vx"; "_y"; "_vy"]%string.

(** Rate of change of the total angular momentum about the origin, read
    off a State Vector and a derivative array [d]: the sum over the bodies of
    [mass * (x * ay - y * ax)]. *)
Definition angular_momentum_rate {N} (bodies : list (Body.t num N))
    (pos_vel_array d : list num) : R :=
  Rsum (map (λ i, to_R (mass_of bodies i) *
                  (to_R (comp pos_vel_array (4 * i)) * to_R (comp d (4 * i + 3)) -
                   to_R (comp pos_vel_array (4 * i + 2)) * to_R (comp d (4 * i + 1))))%R
            (seq 0 (length bodies))).

(** ** The evaluator and the output grid in binary64

    [n_body_func] and the grid [np.linspace(t0, t1, dt)] of [calc_orbits]
    once more, with the arithmetic of the machine: IEEE-754 binary64
    ([SpecFloat] of the standard library with a mantissa of 53 bits), every
    operation rounded to nearest, ties to even, with underflow to zero and
    overflow to infinity, signed zeros, infinities and NaN. *)
Module Float64.
Definition float : Type := SpecFloat.spec_float.

Definition prec : Z := 53.
Definition emax : Z := 1024.

(** The float of a Python [int]. *)
Definition of_int (z : Z) : float := SpecFloat.binary_normalize prec emax z 0 false.

Definition add : float → float → float := SpecFloat.SFadd prec emax.
Definition sub : float → float → float := SpecFloat.SFsub prec emax.
Definition mul : float → float → float := SpecFloat.SFmul prec emax.
Definition div : float → float → float := SpecFloat.SFdiv prec emax.
Definition neg : float → float := SpecFloat.SFopp.

(** [a ** 2], [a ** 0.5] and [a ** (-3)]: C's [pow] at the three exponents
    of the source.  At zeros, infinities and NaN the results are the ones
    the C standard fixes ([pow(±0, -3) = ±inf] on a numpy scalar, with a
    [RuntimeWarning]; [pow(-0, 0.5) = +0]; [pow(-inf, 0.5) = +inf]).  On
    the other values they are the square, the square root, and the
    reciprocal of the cube; the last one can differ from [pow] in the last
    bit, and nothing below depends on it. *)
Definition pow_2 (a : float) : float := mul a a.

Definition pow_half (a : float) : float :=
  match a with
  | SpecFloat.S754_zero _ => SpecFloat.S754_zero false
  | SpecFloat.S754_infinity _ => SpecFloat.S754_infinity false
  | _ => SpecFloat.SFsqrt prec emax a
  end.

Definition pow_neg3 (a : float) : float :=
  match a with
  | SpecFloat.S754_zero s => SpecFloat.S754_infinity s
  | SpecFloat.S754_infinity s => SpecFloat.S754_zero s
  | SpecFloat.S754_nan => SpecFloat.S754_nan
  | SpecFloat.S754_finite _ _ _ => div (of_int 1) (mul (mul a a) a)
  end.

(** The exact value of a float: [m * 2 ^ e] for a finite one. *)
Definition pow2 (e : Z) : R :=
  if decide (0 ≤ e)%Z then IZR (2 ^ e) else (/ IZR (2 ^ (- e)))%R.

Definition to_num (a : float) : num :=
  match a with
  | SpecFloat.S754_zero _ => Fin 0
  | SpecFloat.S754_infinity false => PInf
  | SpecFloat.S754_infinity true => NInf
  | SpecFloat.S754_nan => NaN
  | SpecFloat.S754_finite s m e =>
      Fin (IZR (if s then Z.neg m else Z.pos m) * pow2 e)
  end.

Definition to_R (a : float) : R :=
  match to_num a with Fin r => r | _ => 0%R end.

(** A body with the exact values of its attributes. *)
Definition to_body {N} (b : Body.t float N) : Body.t num N :=
  {| Body.x := to_num (Body.x b); Body.y := to_num (Body.y b);
     Body.vx := to_num (Body.vx b); Body.vy := to_num (Body.vy b);
     Body.mass := to_num (Body.mass b); Body.name := Body.name b |}.

Definition np_zeros (n : nat) : list float := replicate n (of_int 0).

Definition G : float := of_int 1.

Definition inner_body {N} (pos_vel_array : list float) (i : nat)
    (x_pos_body y_pos_body : float)
    (acc : float * float) (jb : nat * Body.t float N) : result (float * float) :=
  let '(dx_vel_body, dy_vel_body) := acc in
  let '(j, other_body) := jb in
  if decide (i ≠ j) then
    x_pos_other_body ← getitem pos_vel_array (j * 4);
    y_pos_other_body ← getitem pos_vel_array (j * 4 + 2);
    let mass_other_body := Body.mass other_body in
    let r := pow_half (add (pow_2 (sub x_pos_body x_pos_other_body))
                           (pow_2 (sub y_pos_body y_pos_other_body))) in
    Ok (add dx_vel_body
          (mul (mul (mul (neg G) mass_other_body)
                    (sub x_pos_body x_pos_other_body))
               (pow_neg3 r)),
        add dy_vel_body
          (mul (mul (mul (neg G) mass_other_body)
                    (sub y_pos_body y_pos_other_body))
               (pow_neg3 r)))
  else Ok (dx_vel_body, dy_vel_body).

Definition outer_body {N} (pos_vel_array : list float)
    (bodies : list (Body.t float N))
    (dpos_vel_array : list float) (ib : nat * Body.t float N)
  : result (list float) :=
  let i := ib.1 in
  x_pos_body ← getitem pos_vel_array (i * 4);
  y_pos_body ← getitem pos_vel_array (i * 4 + 2);
  acc ← for_each (inner_body pos_vel_array i x_pos_body y_pos_body)
        (enumerate bodies) (of_int 0, of_int 0);
  d ← setitem dpos_vel_array (i * 4 + 1) acc.1;
  setitem d (i * 4 + 3) acc.2.

(** [n_body_func(t, pos_vel_array, bodies)] *)
Definition n_body_func {N} (t : float) (pos_vel_array : list float)
    (bodies : list (Body.t float N)) : result (list float) :=
  let dpos_vel_array := np_zeros (4 * length bodies) in
  d ← setslice dpos_vel_array 0 (length dpos_vel_array) 4
        (getslice pos_vel_array 1 (length pos_vel_array) 4);
  d ← setslice d 2 (length d) 4
        (getslice pos_vel_array 3 (length pos_vel_array) 4);
  for_each (outer_body pos_vel_array bodies) (enumerate bodies) d.

(** [np.linspace(start, stop, num)] as numpy computes it: with
    [div = num - 1] and [delta = stop - start], the samples are
    [arange(0, num) * step + start] for [step = delta / div], each
    operation rounded ([arange(0, num) / div * delta + start] when the step
    underflows to zero, [arange(0, num) * delta + start] when there is at
    most one sample), and the last of two or more samples is then set to
    [stop] itself. *)
Definition np_linspace (start stop : float) (num : Z) : result (list float) :=
  if decide (num < 0)%Z then Raise ValueError
  else
    let n := Z.to_nat num in
    let div_ := of_int (num - 1) in
    let delta := sub stop start in
    let y := map (λ k, of_int (Z.of_nat k)) (seq 0 n) in
    let y :=
      if decide (0 < num - 1)%Z then
        let step := div delta div_ in
        if SpecFloat.SFeqb step (of_int 0)
        then map (λ v, mul (div v div_) delta) y
        else map (λ v, mul v step) y
      else map (λ v, mul v delta) y in
    let y := map (λ v, add v start) y in
    Ok (if decide (1 < n) then <[n - 1 := stop]> y else y).
End Float64.

(** The float [1e-200], and two bodies of mass 1 at rest, [1e-200] apart on
    the x axis. *)
Definition tiny : Float64.float :=
  SpecFloat.S754_finite false 6894565328877484 (-717).

Definition close_pair : list (Body.t Float64.float string) :=
  [Body.init (Float64.of_int 0) (Float64.of_int 0) (Float64.of_int 0)
     (Float64.of_int 0) (Float64.of_int 1) "a"%string;
   Body.init tiny (Float64.of_int 0) (Float64.of_int 0)
     (Float64.of_int 0) (Float64.of_int 1) "b"%string].

(** * Properties *)

(** ** The definitions at work *)

Example slice_range_1_8_4 : slice_range 1 8 4 = [1; 5].
Proof. reflexivity. Qed.

Example getslice_odd : getslice [10; 11; 12; 13; 14; 15; 16] 3 7 4 = [13].
Proof. reflexivity. Qed.

Example setslice_same_length :
  setslice [0; 0; 0; 0; 0; 0; 0; 0] 0 8 4 [7; 9] = Ok [7; 0; 0; 0; 9; 0; 0; 0].
Proof. reflexivity. Qed.

Example setslice_broadcast :
  setslice [0; 0; 0; 0; 0; 0; 0; 0] 2 8 4 [7] = Ok [0; 0; 7; 0; 0; 0; 7; 0].
Proof. reflexivity. Qed.

Example setslice_mismatch :
  setslice [0; 0; 0; 0; 0; 0; 0; 0] 0 8 4 [7; 8; 9] = Raise ValueError.
Proof. reflexivity. Qed.

Example set_initial_pair :
  set_initial pair
  = [Fin 0; Fin 0; Fin 0; Fin 1; Fin 1; Fin 0; Fin 0; Fin 0].
Proof. reflexivity. Qed.

Example load_body_config :
  load_bodies config_example
  = Ok [ {| Body.x := JNum 1; Body.y := JNum 3; Body.vx := JNum 2;
            Body.vy := JNum 4; Body.mass := JNum 5;
            Body.name := JStr "sun" |} ].
Proof. reflexivity. Qed.

Example load_body_missing_mass :
  load_body (<["x"%string := JNum 1]> (<["y"%string := JNum 2]>
            (<["vx"%string := JNum 3]> (<["vy"%string := JNum 4]>
            (<["name"%string := JStr "sun"]> ∅)))))
  = Raise (Exception "'mass' value missing, unable to load body").
Proof. reflexivity. Qed.

Example n_body_func_lone :
  n_body_func 0 (set_initial lone) lone = Ok [Fin 1; Fin 0; Fin 1; Fin 0].
Proof. reflexivity. Qed.

Example n_body_func_short_state :
  n_body_func 0 [Fin 0; Fin 1; Fin 0] lone = Raise ValueError.
Proof. reflexivity. Qed.

Example heap_n_body_func_lone :
  Heap.returned (Heap.n_body_func 0 0 1 heap_example)
  = Ok [Fin 1; Fin 0; Fin 1; Fin 0].
Proof. reflexivity. Qed.

Example np_linspace_negative : np_linspace 0 1 (-1) = Raise ValueError.
Proof. reflexivity. Qed.

Example calc_orbits_no_sample :
  calc_orbits (Euler.api string) lone n_body_func 0 1 0 = Raise IndexError.
Proof. reflexivity. Qed.

Example store_orbits_columns_lone :
  store_orbits_columns lone lone_orbit
  = Ok [LStr "a_x"; LStr "a_vx"; LStr "a_y"; LStr "a_vy"].
Proof. reflexivity. Qed.

(** ** Loops *)

Section loops.
Context {A St : Type}.

(** A loop over [enumerate l] whose body acts, on the states satisfying an
    invariant, as the pure step [g] computes [foldl g]. *)
Lemma for_each_zip_seq (I : St → Prop) (body : St → nat * A → result St)
    (g : St → nat → St) (l : list A) :
  ∀ start s0,
    I s0 →
    (∀ k b s, I s → l !! k = Some b →
              body s (start + k, b) = Ok (g s (start + k)) ∧
              I (g s (start + k))) →
    for_each body (zip (seq start (length l)) l) s0
    = Ok (foldl g s0 (seq start (length l))) ∧
    I (foldl g s0 (seq start (length l))).
Proof.
  induction l as [|b l IH]; intros start s0 Hs0 Hbody; simpl.
  - done.
  - destruct (Hbody 0 b s0 Hs0 eq_refl) as [Hb HI].
    rewrite Nat.add_0_r in Hb, HI. rewrite Hb. simpl.
    apply IH; [done|].
    intros k b' s Hs Hk.
    replace (S start + k) with (start + S k) by lia.
    by apply Hbody.
Qed.

Lemma for_each_enumerate (I : St → Prop) (body : St → nat * A → result St)
    (g : St → nat → St) (l : list A) (s0 : St) :
  I s0 →
  (∀ k b s, I s → l !! k = Some b → body s (k, b) = Ok (g s k) ∧ I (g s k)) →
  for_each body (enumerate l) s0 = Ok (foldl g s0 (seq 0 (length l))) ∧
  I (foldl g s0 (seq 0 (length l))).
Proof.
  intros Hs0 Hbody. unfold enumerate.
  apply (for_each_zip_seq I body g l 0 s0 Hs0).
  intros k b s. simpl. apply Hbody.
Qed.
End loops.

(** ** Arrays written through a loop of element assignments *)

Section inserts.
Context {A : Type}.
Implicit Types (d : list A) (f : nat → nat) (g : nat → A).

Lemma foldl_insert_length f g (l : list nat) d :
  length (foldl (λ d k, <[f k := g k]> d) d l) = length d.
Proof.
  revert d. induction l as [|k l IH]; intros d; simpl; [done|].
  by rewrite IH, length_insert.
Qed.

Lemma foldl_insert_miss f g (l : list nat) d j :
  (∀ k, k ∈ l → f k ≠ j) →
  foldl (λ d k, <[f k := g k]> d) d l !! j = d !! j.
Proof.
  revert d. induction l as [|k l IH]; intros d Hmiss; simpl; [done|].
  rewrite IH by (intros k' Hk'; apply Hmiss; by right).
  apply list_lookup_insert_ne, Hmiss. by left.
Qed.

Lemma foldl_insert_hit f g (l : list nat) d k :
  (∀ a b, a ∈ l → b ∈ l → f a = f b → a = b) →
  NoDup l → k ∈ l → f k < length d →
  foldl (λ d k, <[f k := g k]> d) d l !! f k = Some (g k).
Proof.
  revert d. induction l as [|a l IH]; intros d Hinj Hnd Hk Hlt; simpl.
  - by apply elem_of_nil in Hk.
  - apply NoDup_cons in Hnd as [Ha Hnd].
    apply elem_of_cons in Hk as [->|Hk].
    + rewrite foldl_insert_miss.
      * by apply list_lookup_insert_eq.
      * intros k' Hk' Heq. apply Ha.
        rewrite (Hinj a k'); [done|by left|by right|done].
    + apply IH; [|done|done|by rewrite length_insert].
      intros x y Hx Hy. apply Hinj; by right.
Qed.

Lemma foldl_assign_at_zip f g (l : list nat) d :
  foldl assign_at d (zip (map f l) (map g l))
  = foldl (λ d k, <[f k := g k]> d) d l.
Proof.
  revert d. induction l as [|k l IH]; intros d; simpl; [done|].
  by rewrite IH.
Qed.
End inserts.

(** ** Slices with step 4 *)

Lemma slice_range_4 (c n : nat) :
  c < 4 → slice_range c (4 * n) 4 = map (λ k, c + k * 4) (seq 0 n).
Proof.
  intros Hc. unfold slice_range. do 2 f_equal.
  destruct n as [|n]; [by destruct c as [|[|[|[|?]]]]|].
  symmetry. apply Nat.div_unique with (r := 3 - c); lia.
Qed.

Lemma omap_lookup_map {A} (a : list A) (d : A) (h : nat → nat) (l : list nat) :
  (∀ k, k ∈ l → h k < length a) →
  omap (λ k, a !! k) (map h l) = map (λ k, default d (a !! h k)) l.
Proof.
  induction l as [|k l IH]; intros Hin; simpl; [done|].
  destruct (lookup_lt_is_Some_2 a (h k)) as [v Hv]; [apply Hin; by left|].
  rewrite Hv. simpl. f_equal. apply IH. intros k' Hk'. apply Hin. by right.
Qed.

Lemma getslice_4 (pos_vel_array : list num) (c n : nat) :
  length pos_vel_array = 4 * n → c < 4 →
  getslice pos_vel_array c (length pos_vel_array) 4
  = map (λ k, comp pos_vel_array (c + k * 4)) (seq 0 n).
Proof.
  intros Hlen Hc. unfold getslice.
  rewrite Nat.min_id, Hlen, slice_range_4 by done.
  apply omap_lookup_map. intros k Hk%elem_of_seq. lia.
Qed.

Lemma setslice_4 (d : list num) (c n : nat) (g : nat → num) :
  length d = 4 * n → c < 4 →
  setslice d c (length d) 4 (map g (seq 0 n))
  = Ok (foldl (λ d k, <[c + k * 4 := g k]> d) d (seq 0 n)).
Proof.
  intros Hlen Hc. unfold setslice.
  rewrite Nat.min_id, Hlen, slice_range_4 by done.
  unfold broadcast_to. rewrite !length_map. rewrite decide_True by done.
  simpl. by rewrite foldl_assign_at_zip.
Qed.

(** ** The two loops of [n_body_func] *)

Section evaluator.
Context {N : Type}.
Implicit Types (pv d : list num) (bodies : list (Body.t num N)).

Lemma getitem_comp pv k : k < length pv → getitem pv k = Ok (comp pv k).
Proof.
  intros Hk. unfold getitem, comp.
  by destruct (lookup_lt_is_Some_2 pv k Hk) as [v ->].
Qed.

Lemma mass_of_lookup bodies j b :
  bodies !! j = Some b → Body.mass b = mass_of bodies j.
Proof. intros Hb. unfold mass_of. by rewrite Hb. Qed.

Lemma inner_body_step pv bodies i acc j b :
  length pv = 4 * length bodies → bodies !! j = Some b →
  inner_body pv i (comp pv (i * 4)) (comp pv (i * 4 + 2)) acc (j, b)
  = Ok (inner_step pv bodies i acc j).
Proof.
  intros Hlen Hb. pose proof (lookup_lt_Some _ _ _ Hb) as Hj.
  unfold inner_body, inner_step. destruct acc as [ax ay].
  destruct (decide (i ≠ j)); [|done].
  rewrite !getitem_comp by lia. simpl.
  rewrite (mass_of_lookup bodies j b Hb). unfold pull.
  by rewrite !Nat.add_0_r.
Qed.

Lemma inner_loop pv bodies i :
  length pv = 4 * length bodies →
  for_each (inner_body pv i (comp pv (i * 4)) (comp pv (i * 4 + 2)))
           (enumerate bodies) (Fin 0, Fin 0)
  = Ok (accel pv bodies i).
Proof.
  intros Hlen. unfold accel.
  apply (for_each_enumerate (λ _, True)); [done|].
  intros j b acc _ Hb. split; [|done]. by apply inner_body_step.
Qed.

Lemma outer_step_length pv bodies d i :
  length (outer_step pv bodies d i) = length d.
Proof. unfold outer_step. by rewrite !length_insert. Qed.

Lemma outer_body_step pv bodies d i b :
  length pv = 4 * length bodies → length d = 4 * length bodies →
  bodies !! i = Some b →
  outer_body pv bodies d (i, b) = Ok (outer_step pv bodies d i).
Proof.
  intros Hpv Hd Hb. pose proof (lookup_lt_Some _ _ _ Hb) as Hi.
  unfold outer_body. simpl.
  rewrite !getitem_comp by lia. simpl.
  rewrite inner_loop by done. simpl.
  unfold setitem. rewrite decide_True by lia. simpl.
  rewrite decide_True by (rewrite length_insert; lia). done.
Qed.

Lemma outer_loop pv bodies d :
  length pv = 4 * length bodies → length d = 4 * length bodies →
  for_each (outer_body pv bodies) (enumerate bodies) d
  = Ok (foldl (outer_step pv bodies) d (seq 0 (length bodies))).
Proof.
  intros Hpv Hd.
  apply (for_each_enumerate (λ d, length d = 4 * length bodies)); [done|].
  intros i b d' Hd' Hb. split.
  - by apply outer_body_step.
  - by rewrite outer_step_length.
Qed.

(** On a State Vector of the right length [n_body_func] raises nothing and
    returns [derivative]. *)
Lemma n_body_func_derivative t pv bodies :
  length pv = 4 * length bodies →
  n_body_func t pv bodies = Ok (derivative pv bodies).
Proof.
  intros Hpv. unfold n_body_func, derivative.
  set (n := length bodies).
  assert (length (np_zeros (4 * n)) = 4 * n) as H0
    by (unfold np_zeros; by rewrite length_replicate).
  rewrite (getslice_4 pv 1 n), (setslice_4 _ 0 n) by (done || lia). simpl.
  rewrite (getslice_4 pv 3 n) by (done || lia).
  rewrite (setslice_4 _ 2 n) by (rewrite ?foldl_insert_length; done || lia).
  simpl. apply outer_loop; [done|].
  by rewrite !foldl_insert_length.
Qed.
End evaluator.

(** ** Reading the derivative array *)

Section derivative.
Context {N : Type}.
Implicit Types (pv d : list num) (bodies : list (Body.t num N)).

Lemma outer_fold_length pv bodies (l : list nat) d :
  length (foldl (outer_step pv bodies) d l) = length d.
Proof.
  revert d. induction l as [|i l IH]; intros d; simpl; [done|].
  by rewrite IH, outer_step_length.
Qed.

Lemma outer_fold_miss pv bodies (l : list nat) d j :
  (∀ k, k ∈ l → k * 4 + 1 ≠ j ∧ k * 4 + 3 ≠ j) →
  foldl (outer_step pv bodies) d l !! j = d !! j.
Proof.
  revert d. induction l as [|i l IH]; intros d Hmiss; simpl; [done|].
  rewrite IH by (intros k Hk; apply Hmiss; by right).
  destruct (Hmiss i) as [H1 H3]; [by left|].
  unfold outer_step. by rewrite !list_lookup_insert_ne.
Qed.

Lemma outer_fold_hit pv bodies (l : list nat) d i :
  NoDup l → i ∈ l → i * 4 + 3 < length d →
  foldl (outer_step pv bodies) d l !! (i * 4 + 1)
  = Some (accel pv bodies i).1 ∧
  foldl (outer_step pv bodies) d l !! (i * 4 + 3)
  = Some (accel pv bodies i).2.
Proof.
  revert d. induction l as [|a l IH]; intros d Hnd Hi Hlt; simpl.
  - by apply elem_of_nil in Hi.
  - apply NoDup_cons in Hnd as [Ha Hnd].
    apply elem_of_cons in Hi as [->|Hi].
    + rewrite !outer_fold_miss
        by (intros k Hk; assert (k ≠ a) by (by intros ->); lia).
      unfold outer_step. split.
      * rewrite list_lookup_insert_ne by lia.
        apply list_lookup_insert_eq. lia.
      * apply list_lookup_insert_eq. rewrite length_insert. lia.
    + apply IH; [done|done|by rewrite outer_step_length].
Qed.

Lemma derivative_length pv bodies :
  length (derivative pv bodies) = 4 * length bodies.
Proof.
  unfold derivative.
  rewrite outer_fold_length, !foldl_insert_length.
  unfold np_zeros. by rewrite length_replicate.
Qed.

(** Components [4i] and [4i+2] are the velocities of the input. *)
Lemma derivative_position pv bodies i :
  i < length bodies →
  derivative pv bodies !! (4 * i) = Some (comp pv (4 * i + 1)) ∧
  derivative pv bodies !! (4 * i + 2) = Some (comp pv (4 * i + 3)).
Proof.
  intros Hi. unfold derivative.
  assert (length (np_zeros (4 * length bodies)) = 4 * length bodies) as H0
    by (unfold np_zeros; by rewrite length_replicate).
  assert (i ∈ seq 0 (length bodies)) as Hin by (apply elem_of_seq; lia).
  rewrite !outer_fold_miss by (intros k _; lia). split.
  - rewrite foldl_insert_miss by (intros k _; lia).
    replace (4 * i) with (0 + i * 4) by lia.
    rewrite (foldl_insert_hit (λ k, 0 + k * 4)
               (λ k, comp pv (1 + k * 4)) _ _ i);
      [do 2 f_equal; lia|intros; lia|apply NoDup_seq|done|lia].
  - replace (4 * i + 2) with (2 + i * 4) by lia.
    rewrite (foldl_insert_hit (λ k, 2 + k * 4)
               (λ k, comp pv (3 + k * 4)) _ _ i);
      [do 2 f_equal; lia|intros; lia|apply NoDup_seq|done|].
    rewrite foldl_insert_length. lia.
Qed.

(** Components [4i+1] and [4i+3] are the accumulated accelerations. *)
Lemma derivative_velocity pv bodies i :
  i < length bodies →
  derivative pv bodies !! (4 * i + 1) = Some (accel pv bodies i).1 ∧
  derivative pv bodies !! (4 * i + 3) = Some (accel pv bodies i).2.
Proof.
  intros Hi. unfold derivative.
  replace (4 * i) with (i * 4) by lia.
  apply outer_fold_hit; [apply NoDup_seq|apply elem_of_seq; lia|].
  rewrite !foldl_insert_length. unfold np_zeros.
  rewrite length_replicate. lia.
Qed.
End derivative.

(** ** Arithmetic of [num] on finite values *)

Lemma Rsign_lt (r : R) : (r < 0)%R → Rsign r = Lt.
Proof.
  intros Hr. unfold Rsign.
  destruct (total_order_T r 0) as [[?|?]|?]; [done|lra|lra].
Qed.

Lemma Rsign_eq (r : R) : r = 0%R → Rsign r = Eq.
Proof.
  intros Hr. unfold Rsign.
  destruct (total_order_T r 0) as [[?|?]|?]; [lra|done|lra].
Qed.

Lemma Rsign_gt (r : R) : (0 < r)%R → Rsign r = Gt.
Proof.
  intros Hr. unfold Rsign.
  destruct (total_order_T r 0) as [[?|?]|?]; [lra|lra|done].
Qed.

Lemma sub_fin (a b : R) : sub (Fin a) (Fin b) = Fin (a - b).
Proof. done. Qed.

Lemma pow_2_fin (a : R) : pow_2 (Fin a) = Fin (a * a).
Proof. done. Qed.

Lemma pow_half_fin (r : R) : (0 <= r)%R → pow_half (Fin r) = Fin (sqrt r).
Proof.
  intros [Hr| <-]; simpl.
  - by rewrite Rsign_gt.
  - by rewrite Rsign_eq.
Qed.

Lemma pow_neg3_fin (r : R) : r ≠ 0%R → pow_neg3 (Fin r) = Fin (/ (r * r * r)).
Proof.
  intros Hr. simpl. unfold Rsign.
  destruct (total_order_T r 0) as [[?|?]|?]; done.
Qed.

Lemma pow_neg3_zero : pow_neg3 (Fin 0) = PInf.
Proof. simpl. by rewrite Rsign_eq. Qed.

Lemma add_nan_r a : add a NaN = NaN.
Proof. by destruct a. Qed.

Lemma mul_nan_r a : mul a NaN = NaN.
Proof. by destruct a. Qed.

Lemma finite_fin a : is_finite a → a = Fin (to_R a).
Proof. by destruct a. Qed.

Lemma comp_finite pv k : Forall is_finite pv → comp pv k = Fin (to_R (comp pv k)).
Proof.
  intros Hfin. apply finite_fin. unfold comp.
  destruct (pv !! k) as [v|] eqn:Hk; simpl; [|done].
  by apply (Forall_lookup_1 _ _ _ _ Hfin Hk).
Qed.

Lemma mass_of_finite {N} (bodies : list (Body.t num N)) j :
  real_masses bodies → mass_of bodies j = Fin (to_R (mass_of bodies j)).
Proof.
  intros Hfin. apply finite_fin. unfold mass_of.
  destruct (bodies !! j) as [b|] eqn:Hj; simpl; [|done].
  by apply (Forall_lookup_1 _ _ _ _ Hfin Hj).
Qed.

Lemma sum_squares_nonneg (a b : R) : (0 <= a * a + b * b)%R.
Proof.
  pose proof (Rle_0_sqr a). pose proof (Rle_0_sqr b). unfold Rsqr in *. lra.
Qed.

(** The distance between two bodies at different places is not zero. *)
Lemma distance_nonzero pv i j :
  Forall is_finite pv → ¬ coincide pv i j → distance pv i j ≠ 0%R.
Proof.
  intros Hfin Hne. unfold distance.
  set (dx := (to_R (comp pv (4 * i)) - to_R (comp pv (4 * j)))%R).
  set (dy := (to_R (comp pv (4 * i + 2)) - to_R (comp pv (4 * j + 2)))%R).
  assert (dx ≠ 0 ∨ dy ≠ 0)%R as Hd.
  { destruct (Req_dec dx 0) as [Hx|Hx]; [|by left].
    destruct (Req_dec dy 0) as [Hy|Hy]; [|by right].
    exfalso. apply Hne. unfold coincide.
    rewrite (comp_finite pv (4 * i)), (comp_finite pv (4 * j)),
      (comp_finite pv (4 * i + 2)), (comp_finite pv (4 * j + 2)) by done.
    split; f_equal; unfold dx, dy in *; lra. }
  assert (0 < dx ^ 2 + dy ^ 2)%R as Hpos by (destruct Hd; nra).
  pose proof (sqrt_lt_R0 _ Hpos). lra.
Qed.

Lemma add_fin (a b : R) : add (Fin a) (Fin b) = Fin (a + b).
Proof. done. Qed.

Lemma mul_fin (a b : R) : mul (Fin a) (Fin b) = Fin (a * b).
Proof. done. Qed.

Lemma comp_is_finite pv k : Forall is_finite pv → is_finite (comp pv k).
Proof. intros Hfin. rewrite (comp_finite pv k Hfin). done. Qed.

Lemma mass_is_finite {N} (bodies : list (Body.t num N)) j :
  real_masses bodies → is_finite (mass_of bodies j).
Proof. intros Hfin. rewrite (mass_of_finite bodies j Hfin). done. Qed.

(** Name a finite value and replace it by the real it holds. *)
Ltac name_finite t H r :=
  let x := fresh "x" in
  let Hx := fresh "Hx" in
  pose proof H as Hx;
  set (x := t) in *; clearbody x;
  destruct x as [r| | |]; try (exfalso; exact Hx); clear Hx.

(** ** The inner loop computes Newton's sum *)

Section newton.
Context {N : Type}.
Implicit Types (pv : list num) (bodies : list (Body.t num N)).

Lemma pull_newton c pv bodies i j :
  Forall is_finite pv → real_masses bodies → ¬ coincide pv i j →
  pull c pv bodies i j = Fin (newton_term c pv bodies i j).
Proof.
  intros Hpv Hm Hne.
  pose proof (distance_nonzero pv i j Hpv Hne) as Hdist.
  unfold pull, newton_term, distance in *.
  rewrite !(Nat.mul_comm _ 4).
  name_finite (mass_of bodies j) (mass_is_finite bodies j Hm) m.
  name_finite (comp pv (4 * i + c)) (comp_is_finite pv (4 * i + c) Hpv) ci.
  name_finite (comp pv (4 * j + c)) (comp_is_finite pv (4 * j + c) Hpv) cj.
  name_finite (comp pv (4 * i)) (comp_is_finite pv (4 * i) Hpv) xi.
  name_finite (comp pv (4 * j)) (comp_is_finite pv (4 * j) Hpv) xj.
  name_finite (comp pv (4 * i + 2)) (comp_is_finite pv (4 * i + 2) Hpv) yi.
  name_finite (comp pv (4 * j + 2)) (comp_is_finite pv (4 * j + 2) Hpv) yj.
  simpl to_R in *. unfold G.
  rewrite !sub_fin, !pow_2_fin, add_fin.
  replace ((xi - xj) ^ 2 + (yi - yj) ^ 2)%R
    with ((xi - xj) * (xi - xj) + (yi - yj) * (yi - yj))%R in * by ring.
  rewrite pow_half_fin by apply sum_squares_nonneg.
  rewrite pow_neg3_fin by done.
  simpl. f_equal. by field.
Qed.
End newton.

Section newton_sum.
Context {N : Type}.
Implicit Types (pv : list num) (bodies : list (Body.t num N)).

Lemma inner_fold_newton pv bodies i (l : list nat) :
  (∀ j, j ∈ l → j ≠ i → ¬ coincide pv i j) →
  Forall is_finite pv → real_masses bodies →
  ∀ a b : R,
    foldl (inner_step pv bodies i) (Fin a, Fin b) l
    = (Fin (a + Rsum (map (newton_term 0 pv bodies i)
                          (filter (λ j, j ≠ i) l))),
       Fin (b + Rsum (map (newton_term 2 pv bodies i)
                          (filter (λ j, j ≠ i) l)))).
Proof.
  intros Hne Hpv Hm.
  induction l as [|j l IH]; intros a b; simpl.
  - by rewrite !Rplus_0_r.
  - unfold inner_step at 2. destruct (decide (i ≠ j)) as [Hij|Hij].
    + rewrite filter_cons_True by done. simpl.
      rewrite !pull_newton
        by first [done | apply Hne; [by left|done]].
      rewrite IH by (intros j' Hj'; apply Hne; by right).
      by rewrite !Rplus_assoc.
    + rewrite filter_cons_False by (intros ?; apply Hij; done).
      apply IH. intros j' Hj'. apply Hne. by right.
Qed.

Lemma accel_newton pv bodies i :
  state_vector (length bodies) pv → real_masses bodies →
  pairwise_distinct (length bodies) pv → i < length bodies →
  accel pv bodies i
  = (Fin (newton_accel 0 pv bodies i), Fin (newton_accel 2 pv bodies i)).
Proof.
  intros [Hlen Hpv] Hm Hdist Hi. unfold accel, newton_accel.
  rewrite inner_fold_newton; [by rewrite !Rplus_0_l| |done|done].
  intros j Hj%elem_of_seq Hji. apply Hdist; [done|lia|done].
Qed.
End newton_sum.

(** C1, in exact real arithmetic (the [float64] operations taken without
    rounding, underflow or overflow).  On a State Vector of [4n] reals whose
    body positions are pairwise distinct, and for real masses,
    [n_body_func] returns a derivative of the same length and
    layout: components [4i] and [4i+2] are the input's velocity components
    [4i+1] and [4i+3], and the acceleration components [4i+1] and [4i+3] are
    Newton's sum over every other body [j] of
    [-G * mass_j * (pos_i - pos_j) / |pos_i - pos_j|^3], with [G = 1]. *)
Theorem n_body_func_newton {N} (t : time) (pos_vel_array : list num)
    (bodies : list (Body.t num N)) :
  state_vector (length bodies) pos_vel_array →
  real_masses bodies →
  pairwise_distinct (length bodies) pos_vel_array →
  ∃ d, n_body_func t pos_vel_array bodies = Ok d ∧
       length d = length pos_vel_array ∧
       ∀ i, i < length bodies →
         d !! (4 * i) = pos_vel_array !! (4 * i + 1) ∧
         d !! (4 * i + 2) = pos_vel_array !! (4 * i + 3) ∧
         d !! (4 * i + 1) = Some (Fin (newton_accel 0 pos_vel_array bodies i)) ∧
         d !! (4 * i + 3) = Some (Fin (newton_accel 2 pos_vel_array bodies i)).
Proof.
  intros Hsv Hm Hdist. pose proof Hsv as [Hlen Hfin].
  exists (derivative pos_vel_array bodies). split; [|split].
  - by apply n_body_func_derivative.
  - by rewrite derivative_length.
  - intros i Hi.
    destruct (derivative_position pos_vel_array bodies i Hi) as [-> ->].
    destruct (derivative_velocity pos_vel_array bodies i Hi) as [-> ->].
    rewrite accel_newton by done. cbn [fst snd].
    unfold comp.
    destruct (lookup_lt_is_Some_2 pos_vel_array (4 * i + 1)) as [v1 ->]; [lia|].
    destruct (lookup_lt_is_Some_2 pos_vel_array (4 * i + 3)) as [v3 ->]; [lia|].
    done.
Qed.

(** ** The evaluator in binary64: underflow *)

Lemma tiny_positive : (0 < Float64.to_R tiny)%R.
Proof.
  unfold Float64.to_R, tiny, Float64.to_num, Float64.pow2.
  rewrite decide_False by lia.
  apply Rmult_lt_0_compat.
  - by apply IZR_lt.
  - apply Rinv_0_lt_compat. apply IZR_lt. by apply Z.pow_pos_nonneg.
Qed.

Lemma close_pair_evaluated :
  Float64.n_body_func (Float64.of_int 0) (set_initial close_pair) close_pair
  = Ok [SpecFloat.S754_zero false; SpecFloat.S754_infinity false;
        SpecFloat.S754_zero false; SpecFloat.S754_nan;
        SpecFloat.S754_zero false; SpecFloat.S754_infinity true;
        SpecFloat.S754_zero false; SpecFloat.S754_nan].
Proof. vm_compute. reflexivity. Qed.

Lemma close_pair_exact :
  Float64.to_num <$> set_initial close_pair
  = [Fin 0; Fin 0; Fin 0; Fin 0; Fin (Float64.to_R tiny); Fin 0; Fin 0; Fin 0].
Proof. reflexivity. Qed.

(** C1, as stated, fails in the arithmetic of the program: two bodies
    [1e-200] apart on the x axis have distinct positions, but the square of
    their separation underflows to zero, the distance is computed as 0 and
    [0 ** (-3)] as infinity; the acceleration of the first body comes out
    as [+inf] along x and as NaN along y, where Newton's sum is 0. *)
Lemma n_body_func_underflow :
  state_vector (length close_pair) (Float64.to_num <$> set_initial close_pair) ∧
  real_masses (Float64.to_body <$> close_pair) ∧
  pairwise_distinct (length close_pair)
    (Float64.to_num <$> set_initial close_pair) ∧
  ∃ d, Float64.n_body_func (Float64.of_int 0) (set_initial close_pair) close_pair
       = Ok d ∧
       d !! 1 = Some (SpecFloat.S754_infinity false) ∧
       d !! 3 = Some SpecFloat.S754_nan ∧
       newton_accel 2 (Float64.to_num <$> set_initial close_pair)
         (Float64.to_body <$> close_pair) 0 = 0%R.
Proof.
  rewrite close_pair_exact.
  pose proof tiny_positive as Htiny.
  split; [|split; [|split]].
  - split; [reflexivity|]. by repeat constructor.
  - by repeat constructor.
  - intros i j Hi Hj Hij [Hx _]. simpl in Hi, Hj.
    destruct i as [|[|i]], j as [|[|j]]; try lia;
      cbv [comp] in Hx; simpl in Hx; injection Hx as Hx; lra.
  - eexists. split; [exact close_pair_evaluated|].
    split; [done|]. split; [done|].
    unfold newton_accel, newton_term. simpl. lra.
Qed.

(** ** Singular geometry: the arithmetic of coincident bodies *)

Lemma sub_self (a : num) : sub a a = Fin 0 ∨ sub a a = NaN.
Proof.
  destruct a as [r| | |]; [left|right..]; try done.
  unfold sub. simpl. f_equal. lra.
Qed.

Lemma inverse_cube_singular (dx dy : num) :
  (dx = Fin 0 ∨ dx = NaN) → (dy = Fin 0 ∨ dy = NaN) →
  pow_neg3 (pow_half (add (pow_2 dx) (pow_2 dy))) = PInf ∨
  pow_neg3 (pow_half (add (pow_2 dx) (pow_2 dy))) = NaN.
Proof.
  intros [->| ->] [->| ->]; [left|right..]; try done.
  rewrite !pow_2_fin, add_fin, pow_half_fin by lra.
  replace (0 * 0 + 0 * 0)%R with 0%R by lra.
  rewrite sqrt_0. apply pow_neg3_zero.
Qed.

Lemma mul_singular (m d w : num) :
  (d = Fin 0 ∨ d = NaN) → (w = PInf ∨ w = NaN) →
  mul (mul (mul (neg G) m) d) w = NaN.
Proof.
  intros [->| ->] [->| ->]; try apply mul_nan_r.
  - destruct m as [r| | |]; unfold G; simpl; try done.
    + unfold inf_times. rewrite Rsign_eq; [done|lra].
    + unfold inf_times. rewrite Rsign_lt by lra.
      unfold mul. unfold inf_times. by rewrite Rsign_eq.
    + unfold inf_times. rewrite Rsign_lt by lra.
      unfold mul. unfold inf_times. by rewrite Rsign_eq.
  - by destruct (mul (neg G) m).
Qed.

Section singular.
Context {N : Type}.
Implicit Types (pv : list num) (bodies : list (Body.t num N)).

Lemma pull_coincide c pv bodies i j :
  c = 0 ∨ c = 2 → coincide pv i j → pull c pv bodies i j = NaN.
Proof.
  intros Hc [Hx Hy]. unfold pull.
  rewrite !(Nat.mul_comm _ 4).
  assert (comp pv (4 * i + c) = comp pv (4 * j + c)) as ->
    by (destruct Hc as [->| ->]; rewrite ?Nat.add_0_r; done).
  rewrite Hx, Hy.
  apply mul_singular; [apply sub_self|].
  apply inverse_cube_singular; apply sub_self.
Qed.

Lemma inner_fold_nan pv bodies i (l : list nat) (acc : num * num) :
  acc.1 = NaN ∧ acc.2 = NaN →
  (foldl (inner_step pv bodies i) acc l).1 = NaN ∧
  (foldl (inner_step pv bodies i) acc l).2 = NaN.
Proof.
  revert acc. induction l as [|k l IH]; intros [a b] [Ha Hb]; simpl in *.
  - done.
  - apply IH. unfold inner_step. subst a b.
    by destruct (decide (i ≠ k)).
Qed.

Lemma inner_fold_coincide pv bodies i j (l : list nat) (acc : num * num) :
  j ∈ l → i ≠ j → coincide pv i j →
  (foldl (inner_step pv bodies i) acc l).1 = NaN ∧
  (foldl (inner_step pv bodies i) acc l).2 = NaN.
Proof.
  intros Hj Hij Hco. revert acc.
  induction l as [|k l IH]; intros acc; simpl.
  - by apply elem_of_nil in Hj.
  - apply elem_of_cons in Hj as [<-|Hj]; [|by apply IH].
    apply inner_fold_nan. unfold inner_step.
    rewrite decide_True by done. simpl.
    rewrite !pull_coincide by (done || by (left + right)).
    by rewrite !add_nan_r.
Qed.
End singular.

Lemma derivative_singular {N} (pv : list num) (bodies : list (Body.t num N))
    (i j : nat) :
  i < length bodies → j < length bodies → i ≠ j → coincide pv i j →
  derivative pv bodies !! (4 * i + 1) = Some NaN ∧
  derivative pv bodies !! (4 * i + 3) = Some NaN.
Proof.
  intros Hi Hj Hij Hco.
  destruct (derivative_velocity pv bodies i Hi) as [-> ->].
  destruct (inner_fold_coincide pv bodies i j
              (seq 0 (length bodies)) (Fin 0, Fin 0)) as [H1 H3];
    [apply elem_of_seq; lia|done|done|].
  unfold accel. by rewrite H1, H3.
Qed.

(** C5.  When two distinct bodies are at the same position, [n_body_func]
    neither detects nor repairs the singular geometry: it raises nothing and
    returns the derivative array, whose acceleration components for such a
    body are NaN, the value the arithmetic produces ([0 * inf]). *)
Theorem n_body_func_singular {N} (t : time) (pos_vel_array : list num)
    (bodies : list (Body.t num N)) (i j : nat) :
  length pos_vel_array = 4 * length bodies →
  i < length bodies → j < length bodies → i ≠ j →
  coincide pos_vel_array i j →
  ∃ d, n_body_func t pos_vel_array bodies = Ok d ∧
       d !! (4 * i + 1) = Some NaN ∧ d !! (4 * i + 3) = Some NaN.
Proof.
  intros Hlen Hi Hj Hij Hco.
  exists (derivative pos_vel_array bodies). split.
  - by apply n_body_func_derivative.
  - by apply (derivative_singular pos_vel_array bodies i j).
Qed.

(** C9.  With no body or a single body, [n_body_func] raises nothing: the
    inner loop meets no other body, so no distance is formed, and every
    acceleration component of the result is zero, whatever the State Vector
    holds. *)
Theorem n_body_func_degenerate {N} (t : time) (pos_vel_array : list num)
    (bodies : list (Body.t num N)) :
  length bodies ≤ 1 →
  length pos_vel_array = 4 * length bodies →
  ∃ d, n_body_func t pos_vel_array bodies = Ok d ∧
       length d = 4 * length bodies ∧
       ∀ i, i < length bodies →
         d !! (4 * i + 1) = Some (Fin 0) ∧ d !! (4 * i + 3) = Some (Fin 0).
Proof.
  intros Hn Hlen.
  exists (derivative pos_vel_array bodies). split; [|split].
  - by apply n_body_func_derivative.
  - apply derivative_length.
  - intros i Hi.
    destruct (derivative_velocity pos_vel_array bodies i Hi) as [-> ->].
    destruct bodies as [|b [|b' bodies]]; simpl in *; [lia| |lia].
    assert (i = 0) as -> by lia. done.
Qed.

(** ** Sums of reals, and sums of antisymmetric terms *)

Section sums.
Implicit Types (f g : nat → R) (l : list nat).

Lemma Rsum_plus f g l :
  Rsum (map (λ k, f k + g k)%R l) = (Rsum (map f l) + Rsum (map g l))%R.
Proof. induction l as [|k l IH]; simpl; [lra|rewrite IH; lra]. Qed.

Lemma Rsum_scale (c : R) f l :
  Rsum (map (λ k, c * f k)%R l) = (c * Rsum (map f l))%R.
Proof. induction l as [|k l IH]; simpl; [lra|rewrite IH; lra]. Qed.

Lemma Rsum_ext f g l :
  (∀ k, k ∈ l → f k = g k) → Rsum (map f l) = Rsum (map g l).
Proof.
  induction l as [|k l IH]; intros He; simpl; [done|].
  rewrite IH by (intros k' Hk'; apply He; by right).
  by rewrite (He k) by (by left).
Qed.

(** Leaving out the index [i] changes nothing when its term is zero. *)
Lemma Rsum_filter_ne f l (i : nat) :
  f i = 0%R → Rsum (map f (filter (λ j, j ≠ i) l)) = Rsum (map f l).
Proof.
  intros Hi. induction l as [|k l IH]; simpl; [done|].
  destruct (decide (k = i)) as [->|Hk].
  - rewrite filter_cons_False by (by intros ?). rewrite IH, Hi. lra.
  - rewrite filter_cons_True by done. simpl. by rewrite IH.
Qed.

(** The double sum of an antisymmetric function vanishes. *)
Lemma Rsum_antisymmetric (F : nat → nat → R) l :
  (∀ i j, F i j = (- F j i)%R) →
  Rsum (map (λ i, Rsum (map (F i) l)) l) = 0%R.
Proof.
  intros Hanti. induction l as [|a l IH]; simpl; [done|].
  rewrite (Rsum_plus (λ i, F i a) (λ i, Rsum (map (F i) l)) l), IH.
  assert (F a a = 0%R) as -> by (pose proof (Hanti a a); lra).
  assert (Rsum (map (λ i, F i a) l) = (- Rsum (map (F a) l))%R) as ->.
  { replace (- Rsum (map (F a) l))%R with (-1 * Rsum (map (F a) l))%R by lra.
    rewrite <- Rsum_scale. apply Rsum_ext. intros k _.
    rewrite (Hanti k a). lra. }
  lra.
Qed.
End sums.

(** ** Momentum *)

Section momentum.
Context {N : Type}.
Implicit Types (pv d : list num) (bodies : list (Body.t num N)).

Lemma distance_sym pv i j : distance pv i j = distance pv j i.
Proof. unfold distance. f_equal. ring. Qed.

(** Newton's third law: the mass-weighted pulls of [j] on [i] and of [i]
    on [j] are opposite. *)
Lemma newton_third_law c pv bodies i j :
  (to_R (mass_of bodies i) * newton_term c pv bodies i j)%R
  = (- (to_R (mass_of bodies j) * newton_term c pv bodies j i))%R.
Proof.
  unfold newton_term. rewrite (distance_sym pv j i).
  unfold Rdiv. ring.
Qed.

Lemma newton_term_self c pv bodies i : newton_term c pv bodies i i = 0%R.
Proof. unfold newton_term, Rdiv. ring. Qed.

Lemma newton_momentum c pv bodies :
  Rsum (map (λ i, to_R (mass_of bodies i) * newton_accel c pv bodies i)%R
            (seq 0 (length bodies))) = 0%R.
Proof.
  rewrite <- (Rsum_antisymmetric
               (λ i j, to_R (mass_of bodies i) * newton_term c pv bodies i j)%R
               (seq 0 (length bodies)))
    by (intros i j; apply newton_third_law).
  apply Rsum_ext. intros i _. unfold newton_accel.
  rewrite Rsum_filter_ne by apply newton_term_self.
  by rewrite Rsum_scale.
Qed.

Lemma momentum_fold bodies d c (a : nat → R) (l : list nat) :
  real_masses bodies →
  (∀ i, i ∈ l → comp d (4 * i + c) = Fin (a i)) →
  ∀ s : R,
    foldl (λ s i, add s (mul (mass_of bodies i) (comp d (4 * i + c))))
          (Fin s) l
    = Fin (s + Rsum (map (λ i, to_R (mass_of bodies i) * a i)%R l)).
Proof.
  intros Hm. induction l as [|k l IH]; intros Ha s; cbn [foldl map Rsum foldr].
  - by rewrite Rplus_0_r.
  - rewrite (Ha k) by (by left).
    rewrite (mass_of_finite bodies k Hm) at 1.
    rewrite mul_fin, add_fin, IH by (intros i Hi; apply Ha; by right).
    by rewrite Rplus_assoc.
Qed.

Lemma momentum_rate_derivative pv bodies :
  state_vector (length bodies) pv → real_masses bodies →
  pairwise_distinct (length bodies) pv →
  momentum_rate 1 bodies (derivative pv bodies) = Fin 0 ∧
  momentum_rate 3 bodies (derivative pv bodies) = Fin 0.
Proof.
  intros Hsv Hm Hdist. unfold momentum_rate. split.
  - rewrite (momentum_fold bodies _ 1 (newton_accel 0 pv bodies)); [|done|].
    + by rewrite newton_momentum, Rplus_0_r.
    + intros i Hi%elem_of_seq. unfold comp.
      destruct (derivative_velocity pv bodies i) as [-> _]; [lia|].
      by rewrite accel_newton by (done || lia).
  - rewrite (momentum_fold bodies _ 3 (newton_accel 2 pv bodies)); [|done|].
    + by rewrite newton_momentum, Rplus_0_r.
    + intros i Hi%elem_of_seq. unfold comp.
      destruct (derivative_velocity pv bodies i) as [_ ->]; [lia|].
      by rewrite accel_newton by (done || lia).
Qed.

Lemma positive_masses_real bodies : positive_masses bodies → real_masses bodies.
Proof.
  unfold positive_masses, real_masses. intros Hpos.
  eapply Forall_impl; [exact Hpos|].
  intros b (m & Hb & _). by rewrite Hb.
Qed.
End momentum.

(** C8.  For bodies with positive masses and a State Vector with pairwise
    distinct positions, the accelerations returned by [n_body_func] conserve
    total momentum: the mass-weighted sum of the returned acceleration
    components is exactly zero in the x direction and in the y direction. *)
Theorem n_body_func_momentum {N} (t : time) (pos_vel_array : list num)
    (bodies : list (Body.t num N)) :
  positive_masses bodies →
  state_vector (length bodies) pos_vel_array →
  pairwise_distinct (length bodies) pos_vel_array →
  ∃ d, n_body_func t pos_vel_array bodies = Ok d ∧
       momentum_rate 1 bodies d = Fin 0 ∧
       momentum_rate 3 bodies d = Fin 0.
Proof.
  intros Hm%positive_masses_real Hsv Hdist.
  exists (derivative pos_vel_array bodies). split.
  - apply n_body_func_derivative. by destruct Hsv.
  - by apply momentum_rate_derivative.
Qed.

(** ** Initial conditions *)

Section initial.
Context {V N : Type}.
Implicit Types (bodies : list (Body.t V N)).

Lemma set_initial_concat bodies : set_initial bodies = concat (map block bodies).
Proof.
  unfold set_initial.
  enough (∀ acc, foldl (λ initial body, initial ++ block body) acc bodies
                 = acc ++ concat (map block bodies)) as H by apply (H []).
  induction bodies as [|b bodies IH]; intros acc; simpl.
  - by rewrite app_nil_r.
  - rewrite IH. by rewrite <- app_assoc.
Qed.

Lemma set_initial_length bodies : length (set_initial bodies) = length bodies * 4.
Proof.
  rewrite set_initial_concat.
  induction bodies as [|b bodies IH]; simpl; [done|]. by rewrite IH.
Qed.

(** Unpacking: block [i] of the initial State Vector holds the attributes
    of body [i] in the order [x, vx, y, vy]. *)
Lemma set_initial_lookup bodies i body :
  bodies !! i = Some body →
  set_initial bodies !! (4 * i) = Some (Body.x body) ∧
  set_initial bodies !! (4 * i + 1) = Some (Body.vx body) ∧
  set_initial bodies !! (4 * i + 2) = Some (Body.y body) ∧
  set_initial bodies !! (4 * i + 3) = Some (Body.vy body).
Proof.
  rewrite set_initial_concat. revert i.
  induction bodies as [|b bodies IH]; intros i Hi; [done|].
  destruct i as [|i].
  - injection Hi as ->. done.
  - cbn [map concat].
    replace (4 * S i) with (4 + 4 * i) by lia.
    rewrite <- !Nat.add_assoc.
    rewrite !(lookup_app_r (block b)) by (simpl; lia).
    change (length (block b)) with 4.
    replace (4 + 4 * i - 4) with (4 * i) by lia.
    replace (4 + (4 * i + 1) - 4) with (4 * i + 1) by lia.
    replace (4 + (4 * i + 2) - 4) with (4 * i + 2) by lia.
    replace (4 + (4 * i + 3) - 4) with (4 * i + 3) by lia.
    by apply IH.
Qed.
End initial.

(** ** Loading bodies *)

Section loader.
Context {J : Type}.
Implicit Types (b : gmap string J) (config : list (gmap string J)).

(** The fields of a loaded body, read from the source: the positional
    call [Body(x, y, vx, vy, mass, name)] meets the parameters
    [(x, vx, y, vy, mass, name)]. *)
Lemma load_body_fields b :
  has_required_keys b →
  ∃ body, load_body b = Ok body ∧
          b !! "x"%string = Some (Body.x body) ∧
          b !! "y"%string = Some (Body.vx body) ∧
          b !! "vx"%string = Some (Body.y body) ∧
          b !! "vy"%string = Some (Body.vy body) ∧
          b !! "mass"%string = Some (Body.mass body) ∧
          b !! "name"%string = Some (Body.name body).
Proof.
  intros Hkeys. unfold load_body, required_keys in *.
  destruct (Hkeys "x"%string) as [x Hx]; [set_solver|].
  destruct (Hkeys "y"%string) as [y Hy]; [set_solver|].
  destruct (Hkeys "vx"%string) as [vx Hvx]; [set_solver|].
  destruct (Hkeys "vy"%string) as [vy Hvy]; [set_solver|].
  destruct (Hkeys "mass"%string) as [mass Hmass]; [set_solver|].
  destruct (Hkeys "name"%string) as [name Hname]; [set_solver|].
  simpl. rewrite Hx, Hy, Hvx, Hvy, Hmass, Hname. simpl.
  eexists. split; [done|]. done.
Qed.

Lemma load_bodies_loop config :
  Forall has_required_keys config →
  ∀ acc, ∃ bodies,
    for_each (λ bodies b, body ← load_body b; Ok (bodies ++ [body])) config acc
    = Ok (acc ++ bodies) ∧
    Forall2 (λ b body, load_body b = Ok body) config bodies.
Proof.
  induction 1 as [|b config Hb _ IH]; intros acc; simpl.
  - exists []. by rewrite app_nil_r.
  - destruct (load_body_fields b Hb) as (body & Hload & _).
    rewrite Hload. simpl.
    destruct (IH (acc ++ [body])) as (bodies & Hrest & Hall).
    exists (body :: bodies). split.
    + rewrite Hrest. by rewrite <- app_assoc.
    + by constructor.
Qed.
End loader.

(** C3.  [load_body] hands the dict's values to [Body] in the order
    [(x, y, vx, vy, mass, name)] while [Body.__init__] takes
    [(x, vx, y, vy, mass, name)]: a loaded body's [vx] attribute is the
    dict's ["y"] value and its [y] attribute is the dict's ["vx"] value, and
    the initial State Vector [set_initial] assembles from loaded bodies holds
    the dict values in the order [x, y, vx, vy] per body. *)
Theorem load_body_swaps_y_and_vx {J} (config : list (gmap string J)) :
  Forall has_required_keys config →
  ∃ bodies,
    load_bodies config = Ok bodies ∧
    Forall2 (λ b body,
               load_body b = Ok body ∧
               Some (Body.vx body) = b !! "y"%string ∧
               Some (Body.y body) = b !! "vx"%string)
            config bodies ∧
    Some <$> set_initial bodies
    = concat (map (λ b : gmap string J,
                     [b !! "x"%string; b !! "y"%string;
                      b !! "vx"%string; b !! "vy"%string]) config).
Proof.
  intros Hkeys.
  destruct (load_bodies_loop config Hkeys []) as (bodies & Hload & Hall).
  exists bodies. split; [done|].
  rewrite set_initial_concat. clear Hload.
  induction Hall as [|b body config bodies Hb Hall IH].
  - done.
  - apply Forall_cons in Hkeys as [Hk Hkeys].
    destruct (load_body_fields b Hk) as (body' & Hload & Hx & Hy & Hvx & Hvy & _).
    assert (body' = body) as -> by congruence.
    destruct (IH Hkeys) as [IH1 IH2]. split.
    + constructor; [|done]. by rewrite Hy, Hvx.
    + cbn [map concat]. rewrite fmap_app, IH2.
      by rewrite Hx, Hy, Hvx, Hvy.
Qed.

(** ** The output time grid *)

Lemma np_linspace_length t0 t1 dt ts :
  np_linspace t0 t1 dt = Ok ts → length ts = Z.to_nat dt ∧ (0 ≤ dt)%Z.
Proof.
  unfold np_linspace. destruct (decide (dt < 0)%Z); [done|].
  intros [= <-]. split; [|lia].
  destruct (decide (1 < Z.to_nat dt));
    by rewrite ?length_insert, length_map, length_seq.
Qed.

Lemma np_linspace_output_times (t0 t1 : R) dt :
  (2 ≤ dt)%Z → np_linspace t0 t1 dt = Ok (output_times t0 t1 dt).
Proof.
  intros Hdt. unfold np_linspace, output_times, linspace_step.
  rewrite decide_False by lia. rewrite decide_True by lia. f_equal.
  destruct (Z.to_nat dt) as [|m] eqn:Hn; [lia|].
  assert (INR m = (IZR dt - 1)%R) as Hm.
  { rewrite INR_IZR_INZ. replace (Z.of_nat m) with (dt - 1)%Z by lia.
    by rewrite minus_IZR. }
  assert (INR m ≠ 0%R) as Hm0 by (apply not_0_INR; lia).
  replace (S m - 1) with m by lia.
  rewrite seq_S, !map_app. simpl.
  rewrite insert_app_r_alt by (rewrite length_map, length_seq; lia).
  rewrite length_map, length_seq, Nat.sub_diag. simpl.
  f_equal.
  - apply map_ext. intros k. rewrite Hm. lra.
  - f_equal. rewrite <- Hm. unfold time. by field.
Qed.

Lemma output_times_lookup (t0 t1 : R) dt i :
  i < Z.to_nat dt →
  output_times t0 t1 dt !! i
  = Some (t0 + INR i * ((t1 - t0) / (IZR dt - 1)))%R.
Proof.
  intros Hi. unfold output_times.
  rewrite list_lookup_fmap, lookup_seq_lt by done. done.
Qed.

Lemma output_times_grid (t0 t1 : R) dt :
  (2 ≤ dt)%Z →
  length (output_times t0 t1 dt) = Z.to_nat dt ∧
  output_times t0 t1 dt !! 0 = Some t0 ∧
  output_times t0 t1 dt !! (Z.to_nat dt - 1) = Some t1 ∧
  ∀ i a b, output_times t0 t1 dt !! i = Some a →
           output_times t0 t1 dt !! S i = Some b →
           (b - a = (t1 - t0) / (IZR dt - 1))%R.
Proof.
  intros Hdt. split; [|split; [|split]].
  - unfold output_times. by rewrite length_map, length_seq.
  - rewrite output_times_lookup by lia. f_equal. simpl. lra.
  - rewrite output_times_lookup by lia. f_equal.
    rewrite INR_IZR_INZ. replace (Z.of_nat (Z.to_nat dt - 1)) with (dt - 1)%Z by lia.
    rewrite minus_IZR.
    assert (IZR dt - 1 ≠ 0)%R.
    { rewrite <- minus_IZR. apply not_0_IZR. lia. }
    by field.
  - intros i a b Ha Hb.
    assert (S i < Z.to_nat dt) as Hi.
    { apply lookup_lt_Some in Hb. unfold output_times in Hb.
      by rewrite length_map, length_seq in Hb. }
    rewrite output_times_lookup in Ha, Hb by lia.
    assert (a = t0 + INR i * ((t1 - t0) / (IZR dt - 1)))%R as -> by congruence.
    assert (b = t0 + INR (S i) * ((t1 - t0) / (IZR dt - 1)))%R as -> by congruence.
    rewrite S_INR. lra.
Qed.

(** ** The loop of [calc_orbits] *)

Section driver.
Context {N : Type} (ode : ode_api N).
Implicit Types (y : ndarray2) (s : ode_state ode) (t : list time).

Lemma with_rows_id y : with_rows y (rows y) = y.
Proof. by destruct y. Qed.

Lemma calc_orbits_step_ok t y s k tk out s1 row :
  t !! k = Some tk → ode_integrate ode s tk = Ok (out, s1) →
  k < nrows y → broadcast_to (ncols y) out = Ok row →
  calc_orbits_step ode t (y, s) k
  = Ok (with_rows y (<[k := row]> (rows y)), s1).
Proof.
  intros Htk Hint Hk Hrow. unfold calc_orbits_step, getitem, setrow.
  rewrite Htk. simpl. rewrite Hint. simpl.
  rewrite decide_True by done. rewrite Hrow. done.
Qed.

Lemma calc_orbits_step_inv t y s k y1 s1 :
  calc_orbits_step ode t (y, s) k = Ok (y1, s1) →
  ∃ tk out row,
    t !! k = Some tk ∧ ode_integrate ode s tk = Ok (out, s1) ∧
    k < nrows y ∧ broadcast_to (ncols y) out = Ok row ∧
    y1 = with_rows y (<[k := row]> (rows y)).
Proof.
  unfold calc_orbits_step, getitem, setrow.
  destruct (t !! k) as [tk|] eqn:Htk; [|done]. simpl.
  destruct (ode_integrate ode s tk) as [[out s2]|] eqn:Hint; [|done]. simpl.
  destruct (decide (k < nrows y)); [|done].
  destruct (broadcast_to (ncols y) out) as [row|] eqn:Hrow; [|done]. simpl.
  intros [= <- <-]. by exists tk, out, row.
Qed.

Lemma calc_loop_inv t (m : nat) :
  ∀ k y s y' s',
    length (rows y) = nrows y →
    for_each (calc_orbits_step ode t) (seq k m) (y, s) = Ok (y', s') →
    ∃ outs rs,
      ode_run ode s (take m (drop k t)) outs s' ∧
      stored (ncols y) outs rs ∧
      y' = with_rows y (take k (rows y) ++ rs ++ drop (k + m) (rows y)).
Proof.
  induction m as [|m IH]; intros k y s y' s' Hrows; simpl.
  - intros [= <- <-]. exists [], []. split; [constructor|]. split; [constructor|].
    simpl. by rewrite Nat.add_0_r, take_drop, with_rows_id.
  - destruct (calc_orbits_step ode t (y, s) k) as [[y1 s1]|] eqn:Hstep; [|done].
    simpl. intros Hloop.
    apply calc_orbits_step_inv in Hstep
      as (tk & out & row & Htk & Hint & Hk & Hrow & ->).
    apply IH in Hloop as (outs & rs & Hrun & Hst & ->);
      [|simpl; by rewrite length_insert].
    exists (out :: outs), (row :: rs). split; [|split].
    + rewrite (drop_S _ _ _ Htk). simpl. by econstructor.
    + by constructor.
    + unfold with_rows. simpl. f_equal.
      rewrite (take_S_r _ _ row) by (apply list_lookup_insert_eq; lia).
      rewrite take_insert_ge by lia.
      rewrite drop_insert_lt by lia.
      rewrite <- app_assoc. simpl. by rewrite Nat.add_succ_r.
Qed.

Lemma calc_loop_ok t (m : nat) :
  ∀ k y s outs rs s',
    length (rows y) = nrows y → k + m ≤ nrows y →
    ode_run ode s (take m (drop k t)) outs s' → k + m ≤ length t →
    stored (ncols y) outs rs →
    for_each (calc_orbits_step ode t) (seq k m) (y, s)
    = Ok (with_rows y (take k (rows y) ++ rs ++ drop (k + m) (rows y)), s').
Proof.
  induction m as [|m IH]; intros k y s outs rs s' Hrows Hk Hrun Ht Hst; simpl.
  - inversion Hrun; subst. inversion Hst; subst. simpl.
    by rewrite Nat.add_0_r, take_drop, with_rows_id.
  - destruct (lookup_lt_is_Some_2 t k) as [tk Htk]; [lia|].
    rewrite (drop_S _ _ _ Htk) in Hrun. simpl in Hrun.
    inversion Hrun as [|? ? out s1 ? outs' ? Hint Hrun']; subst.
    inversion Hst as [|? row ? rs' Hrow Hst']; subst.
    rewrite (calc_orbits_step_ok t y s k tk out s1 row) by (done || lia).
    simpl.
    rewrite (IH (S k) _ s1 outs' rs' s');
      [|simpl; by rewrite length_insert|simpl; lia|done|lia|done].
    unfold with_rows. simpl. do 2 f_equal.
    rewrite (take_S_r _ _ row) by (apply list_lookup_insert_eq; lia).
    rewrite take_insert_ge by lia.
    rewrite drop_insert_lt by lia.
    rewrite <- app_assoc. simpl. by rewrite Nat.add_succ_r.
Qed.
End driver.

(** ** [calc_orbits] as a whole *)

Section calc_orbits.
Context {N : Type} (ode : ode_api N).
Implicit Types (bodies : list (Body.t num N)) (f : rhs N).

Lemma broadcast_to_same {A} (m : nat) (src : list A) :
  length src = m → broadcast_to m src = Ok src.
Proof. intros Hlen. unfold broadcast_to. by rewrite decide_True. Qed.

Lemma broadcast_to_length {A} (m : nat) (src row : list A) :
  broadcast_to m src = Ok row → length row = m.
Proof.
  unfold broadcast_to. destruct (decide (length src = m)) as [Hlen|_].
  - by intros [= <-].
  - destruct src as [|v [|? ?]]; [done| |done].
    intros [= <-]. by rewrite length_replicate.
Qed.

Lemma stored_same (m : nat) (outs : list (list num)) :
  Forall (λ out, length out = m) outs → stored m outs outs.
Proof.
  induction 1 as [|out outs Hout _ IH]; constructor; [|done].
  by apply broadcast_to_same.
Qed.

Lemma stored_length (m : nat) (outs rs : list (list num)) :
  stored m outs rs → Forall (λ row, length row = m) rs.
Proof.
  induction 1 as [|out row outs rs Hrow _ IH]; constructor; [|done].
  by apply broadcast_to_length in Hrow.
Qed.

(** [calc_orbits] returns exactly when [dt >= 1], no call to the solver
    raises and every state the solver returns fits a row; the trajectory
    is then the initial condition followed by those states. *)
Lemma calc_orbits_spec bodies f (t0 t1 : time) dt ts y :
  np_linspace t0 t1 dt = Ok ts → (1 ≤ dt)%Z →
  calc_orbits ode bodies f t0 t1 dt = Ok y ↔
  ∃ outs rs s',
    ode_run ode
      (ode_setup ode f "dop853" rtol atol (set_initial bodies) t0 bodies)
      (tail ts) outs s' ∧
    stored (length bodies * 4) outs rs ∧
    y = {| nrows := Z.to_nat dt; ncols := length bodies * 4;
           rows := set_initial bodies :: rs |}.
Proof.
  intros Hts Hdt. unfold calc_orbits. rewrite Hts. simpl.
  apply np_linspace_length in Hts as [Hlen _].
  destruct (Z.to_nat dt) as [|n] eqn:Hn; [lia|].
  rewrite Hlen. unfold setrow at 1. simpl.
  rewrite broadcast_to_same by apply set_initial_length. simpl.
  replace (n - 0) with n by lia.
  set (y1 := {| nrows := S n; ncols := length bodies * 4;
                rows := set_initial bodies :: replicate n (np_zeros (length bodies * 4)) |}).
  set (s0 := ode_setup ode f "dop853" rtol atol (set_initial bodies) t0 bodies).
  assert (take n (drop 1 ts) = tail ts) as Htail.
  { rewrite take_ge; [by destruct ts|]. rewrite length_drop. lia. }
  assert (drop n (replicate n (np_zeros (length bodies * 4))) = []) as Hdrop.
  { apply drop_ge. by rewrite length_replicate. }
  split.
  - destruct (for_each (calc_orbits_step ode ts) (seq 1 n) (y1, s0))
      as [[y' s']|] eqn:Hloop; [|done].
    simpl. intros [= <-].
    apply calc_loop_inv in Hloop as (outs & rs & Hrun & Hst & ->);
      [|simpl; by rewrite length_replicate].
    exists outs, rs, s'. rewrite Htail in Hrun. split; [done|]. split; [done|].
    unfold with_rows. simpl. by rewrite Hdrop, app_nil_r.
  - intros (outs & rs & s' & Hrun & Hst & ->).
    rewrite <- Htail in Hrun.
    rewrite (calc_loop_ok ode ts n 1 y1 s0 outs rs s');
      [|simpl; by rewrite length_replicate|simpl; lia|done|lia|done].
    unfold with_rows. simpl. by rewrite Hdrop, app_nil_r.
Qed.

(** Without a row 0 there is nothing to return. *)
Lemma calc_orbits_returns_dt bodies f (t0 t1 : time) dt y :
  calc_orbits ode bodies f t0 t1 dt = Ok y →
  (1 ≤ dt)%Z ∧ ∃ ts, np_linspace t0 t1 dt = Ok ts.
Proof.
  unfold calc_orbits.
  destruct (np_linspace t0 t1 dt) as [ts|] eqn:Hts; [|done]. simpl.
  apply np_linspace_length in Hts as [Hlen Hdt].
  unfold setrow at 1. simpl. rewrite Hlen.
  destruct (decide (0 < Z.to_nat dt)); [|done].
  intros _. split; [lia|by eexists].
Qed.
Lemma ode_run_length (s : ode_state ode) ts outs s' :
  ode_run ode s ts outs s' → length outs = length ts.
Proof. induction 1; simpl; [done|]. by f_equal. Qed.

(** One row per output time. *)
Lemma calc_orbits_rows_length bodies f (t0 t1 : time) dt y :
  calc_orbits ode bodies f t0 t1 dt = Ok y →
  nrows y = Z.to_nat dt ∧ length (rows y) = Z.to_nat dt.
Proof.
  intros Hy.
  destruct (calc_orbits_returns_dt bodies f t0 t1 dt y Hy) as (Hdt & ts & Hts).
  apply (calc_orbits_spec bodies f t0 t1 dt ts y Hts Hdt) in Hy
    as (outs & rs & s' & Hrun & Hst & ->).
  split; [done|]. simpl.
  apply np_linspace_length in Hts as [Hlen _].
  rewrite <- (Forall2_length _ _ _ Hst), (ode_run_length _ _ _ _ Hrun).
  destruct ts; simpl in *; lia.
Qed.
End calc_orbits.

(** C2.  The first row of the array [calc_orbits] returns is the initial
    condition: the flat State Vector [set_initial] builds by concatenating
    each body's [(x, vx, y, vy)] in list order, whatever the solver does; so
    block [i] of that row gives back the position and velocity attributes of
    body [i]. *)
Theorem calc_orbits_first_row {N} (ode : ode_api N)
    (bodies : list (Body.t num N)) (f : rhs N) (t0 t1 : time) (dt : Z)
    (y : ndarray2) :
  calc_orbits ode bodies f t0 t1 dt = Ok y →
  ∃ row, rows y !! 0 = Some row ∧
         row = set_initial bodies ∧
         row = concat (map block bodies) ∧
         ∀ i body, bodies !! i = Some body →
           row !! (4 * i) = Some (Body.x body) ∧
           row !! (4 * i + 1) = Some (Body.vx body) ∧
           row !! (4 * i + 2) = Some (Body.y body) ∧
           row !! (4 * i + 3) = Some (Body.vy body).
Proof.
  intros Hy.
  destruct (calc_orbits_returns_dt ode bodies f t0 t1 dt y Hy) as (Hdt & ts & Hts).
  apply (calc_orbits_spec ode bodies f t0 t1 dt ts y Hts Hdt) in Hy
    as (outs & rs & s' & _ & _ & ->).
  exists (set_initial bodies). split; [done|]. split; [done|]. split.
  - apply set_initial_concat.
  - intros i body. apply set_initial_lookup.
Qed.

(** C7, in exact real arithmetic (the output grid taken without
    rounding).  For [dt >= 2] the trajectory is sampled on the grid of
    exactly [dt] evenly spaced output times from [t0] to [t1] inclusive, consecutive
    times [(t1 - t0) / (dt - 1)] apart: [calc_orbits] returns exactly when
    the solver, asked for the times after [t0] in turn, returns a state for
    each, and the result has one row per output time, row 0 the initial
    condition and row [i] the solver's state at the [i]-th time.  [dt] is a
    number of samples, not a step size. *)
Theorem calc_orbits_sampling {N} (ode : ode_api N)
    (bodies : list (Body.t num N)) (f : rhs N) (t0 t1 : R) (dt : Z) :
  (2 ≤ dt)%Z →
  (length (output_times t0 t1 dt) = Z.to_nat dt ∧
   output_times t0 t1 dt !! 0 = Some t0 ∧
   output_times t0 t1 dt !! (Z.to_nat dt - 1) = Some t1 ∧
   ∀ i a b, output_times t0 t1 dt !! i = Some a →
            output_times t0 t1 dt !! S i = Some b →
            (b - a = (t1 - t0) / (IZR dt - 1))%R) ∧
  ∀ y,
    (calc_orbits ode bodies f t0 t1 dt = Ok y ↔
     ∃ outs rs s',
       ode_run ode
         (ode_setup ode f "dop853" rtol atol (set_initial bodies) t0 bodies)
         (tail (output_times t0 t1 dt)) outs s' ∧
       stored (length bodies * 4) outs rs ∧
       y = {| nrows := Z.to_nat dt; ncols := length bodies * 4;
              rows := set_initial bodies :: rs |}) ∧
    (calc_orbits ode bodies f t0 t1 dt = Ok y →
     length (rows y) = length (output_times t0 t1 dt)).
Proof.
  intros Hdt. pose proof (output_times_grid t0 t1 dt Hdt) as Hgrid.
  split; [done|]. intros y. split.
  - apply calc_orbits_spec; [|lia].
    by apply np_linspace_output_times.
  - intros Hy. destruct Hgrid as [-> _].
    by apply (calc_orbits_rows_length ode bodies f t0 t1 dt y).
Qed.

(** ** The output grid in binary64 *)

Lemma float_exact (m : positive) (e : Z) :
  (e < 0)%Z →
  Float64.to_R (SpecFloat.S754_finite false m e)
  = (IZR (Z.pos m) / IZR (2 ^ (- e)))%R.
Proof.
  intros He. unfold Float64.to_R, Float64.to_num, Float64.pow2.
  by rewrite decide_False by lia.
Qed.

(** C7, as stated, fails in the arithmetic of the program: the output times
    of [calc_orbits] are [np.linspace(t0, t1, dt)], and for [t0 = 0],
    [t1 = 1] and [dt = 11] the grid is [0, 0.1, 0.2, 0.30000000000000004,
    ...]: the fourth time is further from the third than the third is from
    the second, and their difference is not [(t1 - t0) / (dt - 1)]. *)
Lemma calc_orbits_grid_uneven :
  ∃ t a b c,
    Float64.np_linspace (Float64.of_int 0) (Float64.of_int 1) 11 = Ok t ∧
    t !! 1 = Some a ∧ t !! 2 = Some b ∧ t !! 3 = Some c ∧
    (Float64.to_R c - Float64.to_R b ≠ Float64.to_R b - Float64.to_R a)%R ∧
    (Float64.to_R c - Float64.to_R b
     ≠ (Float64.to_R (Float64.of_int 1) - Float64.to_R (Float64.of_int 0))
       / (IZR 11 - 1))%R.
Proof.
  exists [SpecFloat.S754_zero false;
          SpecFloat.S754_finite false 7205759403792794 (-56);
          SpecFloat.S754_finite false 7205759403792794 (-55);
          SpecFloat.S754_finite false 5404319552844596 (-54);
          SpecFloat.S754_finite false 7205759403792794 (-54);
          SpecFloat.S754_finite false 4503599627370496 (-53);
          SpecFloat.S754_finite false 5404319552844596 (-53);
          SpecFloat.S754_finite false 6305039478318695 (-53);
          SpecFloat.S754_finite false 7205759403792794 (-53);
          SpecFloat.S754_finite false 8106479329266893 (-53);
          SpecFloat.S754_finite false 4503599627370496 (-52)],
    (SpecFloat.S754_finite false 7205759403792794 (-56)),
    (SpecFloat.S754_finite false 7205759403792794 (-55)),
    (SpecFloat.S754_finite false 5404319552844596 (-54)).
  split; [by vm_compute|]. split; [by vm_compute|].
  split; [by vm_compute|]. split; [by vm_compute|].
  change (Float64.of_int 1)
    with (SpecFloat.S754_finite false 4503599627370496 (-52)).
  change (Float64.to_R (Float64.of_int 0)) with 0%R.
  rewrite !float_exact by lia.
  change (- -52)%Z with 52%Z. change (- -54)%Z with 54%Z.
  change (- -55)%Z with 55%Z. change (- -56)%Z with 56%Z.
  change (2 ^ 52)%Z with 4503599627370496%Z.
  change (2 ^ 54)%Z with 18014398509481984%Z.
  change (2 ^ 55)%Z with 36028797018963968%Z.
  change (2 ^ 56)%Z with 72057594037927936%Z.
  split; lra.
Qed.

(** ** Failures of the solver *)

Lemma ode_run_with_successful {N} (ode : ode_api N)
    (flag : ode_state ode → bool) s ts outs s' :
  ode_run ode s ts outs s' → ode_run (with_successful ode flag) s ts outs s'.
Proof.
  induction 1 as [|s t out s1 ts outs s2 Hint _ IH]; [constructor|].
  by apply (ode_run_cons (with_successful ode flag) s t out s1 ts outs s2).
Qed.

(** C4, as the code has it.  [calc_orbits] consults neither the solver's
    success flag nor the finiteness of the states it receives: for
    [dt >= 1], whenever every call to the solver returns a state of [4n]
    components, [calc_orbits] returns the trajectory made of the initial
    condition and exactly those states, whatever they hold and whatever the
    success flag says. *)
Theorem calc_orbits_keeps_solver_states {N} (ode : ode_api N)
    (flag : ode_state ode → bool)
    (bodies : list (Body.t num N)) (f : rhs N) (t0 t1 : time) (dt : Z)
    (ts : list time) (outs : list (list num)) (s' : ode_state ode) :
  (1 ≤ dt)%Z →
  np_linspace t0 t1 dt = Ok ts →
  ode_run ode
    (ode_setup ode f "dop853" rtol atol (set_initial bodies) t0 bodies)
    (tail ts) outs s' →
  Forall (λ out, length out = length bodies * 4) outs →
  calc_orbits (with_successful ode flag) bodies f t0 t1 dt
  = Ok {| nrows := Z.to_nat dt; ncols := length bodies * 4;
          rows := set_initial bodies :: outs |}.
Proof.
  intros Hdt Hts Hrun Hlen.
  apply (calc_orbits_spec (with_successful ode flag) bodies f t0 t1 dt ts _ Hts Hdt).
  exists outs, outs, s'. split; [|split; [|done]].
  - by apply ode_run_with_successful.
  - by apply stored_same.
Qed.

Lemma forallb_finite_nan (l : list num) (k : nat) :
  l !! k = Some NaN → forallb is_finite_b l = false.
Proof.
  revert k. induction l as [|a l IH]; intros k Hk; [done|].
  destruct k as [|k]; simpl in *.
  - by injection Hk as ->.
  - rewrite (IH k Hk). by destruct (is_finite_b a).
Qed.

(** C4, as stated, fails: with two bodies initialized at identical
    coordinates the force evaluation yields NaN and the solver's step fails:
    it clears its success flag and hands back the state it had.
    [calc_orbits] raises nothing: it returns a trajectory whose second row,
    the sample at [t1], is the initial condition once more. *)
Lemma calc_orbits_returns_stale_row :
  coincide (set_initial twins) 0 1 ∧
  (∃ d, n_body_func 0 (set_initial twins) twins = Ok d ∧ d !! 1 = Some NaN) ∧
  ∃ y s',
    ode_run (Euler.api string)
      (ode_setup (Euler.api string) n_body_func "dop853" rtol atol
         (set_initial twins) 0 twins)
      (tail (output_times 0 1 2)) [set_initial twins] s' ∧
    ode_successful (Euler.api string) s' = false ∧
    calc_orbits (Euler.api string) twins n_body_func 0 1 2 = Ok y ∧
    rows y = [set_initial twins; set_initial twins].
Proof.
  split; [done|].
  pose proof (n_body_func_derivative (N := string) 0%R (set_initial twins) twins eq_refl)
    as Hf.
  pose proof (derivative_singular (set_initial twins) twins 0 1) as [Hnan _];
    [simpl; lia|simpl; lia|done|done|].
  change (4 * 0 + 1) with 1 in Hnan.
  split; [by eexists|].
  set (t1 := (0 + INR 1 * ((1 - 0) / (IZR 2 - 1)))%R).
  set (s' := Euler.mk_state n_body_func (set_initial twins) 0%R twins false).
  assert (ode_run (Euler.api string)
            (ode_setup (Euler.api string) n_body_func "dop853" rtol atol
               (set_initial twins) 0 twins)
            (tail (output_times 0 1 2)) [set_initial twins] s') as Hrun.
  { change (tail (output_times 0 1 2)) with [t1].
    eapply ode_run_cons; [|constructor].
    simpl. unfold Euler.integrate. simpl Euler.f. simpl Euler.y.
    simpl Euler.t. simpl Euler.f_params. rewrite Hf.
    cbn [mbind result_bind].
    by rewrite (forallb_finite_nan _ 1 Hnan). }
  eexists _, s'. split; [done|]. split; [done|]. split.
  - apply (calc_orbits_spec (Euler.api string) twins n_body_func 0%R 1%R 2
             (output_times 0 1 2)); [by apply np_linspace_output_times|lia|].
    eexists [set_initial twins], [set_initial twins], s'.
    split; [done|]. split; [|done].
    apply stored_same. by constructor.
  - done.
Qed.

(** ** The columns of the exported table *)

Section columns.
Implicit Types (bodies : list (Body.t num string)) (spec : gmap nat string).

Lemma rename_app spec (l1 l2 : list label) :
  rename spec (l1 ++ l2) = rename spec l1 ++ rename spec l2.
Proof. apply map_app. Qed.

Lemma rename_column_names spec bodies :
  rename spec (column_names bodies) = column_names bodies.
Proof.
  unfold column_names, rename.
  induction bodies as [|b bodies IH]; [done|].
  cbn [map concat]. rewrite map_app. f_equal. apply IH.
Qed.

Lemma rename_ints_miss spec (l : list nat) :
  (∀ k, k ∈ l → spec !! k = None) →
  rename spec (map LInt l) = map LInt l.
Proof.
  induction l as [|k l IH]; intros Hmiss; simpl; [done|].
  rewrite (Hmiss k) by (by left). f_equal.
  apply IH. intros k' Hk'. apply Hmiss. by right.
Qed.

Lemma rename_spec_block (i : nat) (body_name : string) :
  rename (rename_spec i body_name) (map LInt (seq (4 * i) 4))
  = [LStr (body_name +:+ "_x"); LStr (body_name +:+ "_vx");
     LStr (body_name +:+ "_y"); LStr (body_name +:+ "_vy")]%string.
Proof.
  unfold rename_spec. cbn [seq map rename].
  replace (4 * i) with (i * 4) by lia.
  replace (S (i * 4)) with (i * 4 + 1) by lia.
  replace (S (i * 4 + 1)) with (i * 4 + 2) by lia.
  replace (S (i * 4 + 2)) with (i * 4 + 3) by lia.
  set (spec := <[i * 4 + 3 := _]> _).
  assert (spec !! (i * 4) = Some (body_name +:+ "_x")%string) as ->
    by (unfold spec; rewrite !lookup_insert_ne by lia; apply lookup_insert_eq).
  assert (spec !! (i * 4 + 1) = Some (body_name +:+ "_vx")%string) as ->
    by (unfold spec; rewrite !lookup_insert_ne by lia; apply lookup_insert_eq).
  assert (spec !! (i * 4 + 2) = Some (body_name +:+ "_y")%string) as ->
    by (unfold spec; rewrite !lookup_insert_ne by lia; apply lookup_insert_eq).
  assert (spec !! (i * 4 + 3) = Some (body_name +:+ "_vy")%string) as ->
    by (unfold spec; apply lookup_insert_eq).
  done.
Qed.

Lemma rename_spec_miss (i k : nat) (body_name : string) :
  4 * i + 4 ≤ k → rename_spec i body_name !! k = None.
Proof.
  intros Hk. unfold rename_spec.
  by rewrite !lookup_insert_ne, lookup_empty by lia.
Qed.

Lemma store_orbits_body_lookup bodies (columns : list label) k b :
  bodies !! k = Some b →
  store_orbits_body bodies columns k
  = Ok (rename (rename_spec k (Body.name b)) columns).
Proof. intros Hb. unfold store_orbits_body, getitem. by rewrite Hb. Qed.

Lemma store_orbits_loop bodies (m : nat) :
  ∀ k, k + m ≤ length bodies →
    for_each (store_orbits_body bodies) (seq k m)
      (column_names (take k bodies) ++
       map LInt (seq (4 * k) (4 * (length bodies - k))))
    = Ok (column_names (take (k + m) bodies) ++
          map LInt (seq (4 * (k + m)) (4 * (length bodies - (k + m))))).
Proof.
  induction m as [|m IH]; intros k Hk; cbn [seq for_each].
  - by rewrite Nat.add_0_r.
  - destruct (lookup_lt_is_Some_2 bodies k) as [b Hb]; [lia|].
    rewrite (store_orbits_body_lookup bodies _ k b Hb).
    cbn [mbind result_bind].
    replace (4 * (length bodies - k))
      with (4 + 4 * (length bodies - S k)) by lia.
    rewrite seq_app, map_app.
    rewrite !rename_app.
    rewrite rename_column_names, rename_spec_block.
    rewrite rename_ints_miss
      by (intros j Hj%elem_of_seq; apply rename_spec_miss; lia).
    replace (k + S m) with (S k + m) by lia.
    rewrite <- IH by lia. f_equal.
    rewrite (take_S_r _ _ b Hb). unfold column_names.
    rewrite map_app, concat_app. cbn [map concat].
    rewrite app_nil_r, <- !app_assoc. do 2 f_equal.
    replace (4 * S k) with (4 * k + 4) by lia. done.
Qed.

Lemma column_names_length bodies :
  length (column_names bodies) = 4 * length bodies.
Proof.
  unfold column_names. induction bodies as [|b bodies IH]; [done|].
  cbn [map concat]. rewrite length_app, IH. simpl. lia.
Qed.

Lemma store_orbits_column_names bodies (orbit_paths : ndarray2) :
  ncols orbit_paths = length bodies * 4 →
  store_orbits_columns bodies orbit_paths = Ok (column_names bodies).
Proof.
  intros Hcols. unfold store_orbits_columns. rewrite Hcols.
  replace (map LInt (seq 0 (length bodies * 4)))
    with (column_names (take 0 bodies) ++
          map LInt (seq (4 * 0) (4 * (length bodies - 0)))).
  - rewrite store_orbits_loop by lia.
    rewrite Nat.add_0_l, Nat.sub_diag, Nat.mul_0_r, firstn_all.
    cbn [seq map]. by rewrite app_nil_r.
  - rewrite take_0, Nat.sub_0_r, Nat.mul_0_r, (Nat.mul_comm 4). done.
Qed.
End columns.

(** C6, as the code has it.  Every row of the trajectory [calc_orbits]
    returns has exactly the [4n] columns of the State Vector, in its layout,
    and no column for the time: the time of a sample is given by the index of
    its row only.  The table [store_orbits] exports has the matching header,
    four names per body in State Vector order. *)
Theorem calc_orbits_row_layout (ode : ode_api string)
    (bodies : list (Body.t num string)) (f : rhs string) (t0 t1 : time)
    (dt : Z) (y : ndarray2) :
  calc_orbits ode bodies f t0 t1 dt = Ok y →
  ncols y = 4 * length bodies ∧
  length (rows y) = Z.to_nat dt ∧
  Forall (λ row, length row = 4 * length bodies) (rows y) ∧
  store_orbits_columns bodies y = Ok (column_names bodies) ∧
  length (column_names bodies) = 4 * length bodies.
Proof.
  intros Hy. pose proof Hy as Hy0.
  destruct (calc_orbits_returns_dt ode bodies f t0 t1 dt y Hy) as (Hdt & ts & Hts).
  apply (calc_orbits_spec ode bodies f t0 t1 dt ts y Hts Hdt) in Hy
    as (outs & rs & s' & Hrun & Hst & ->).
  simpl. split; [lia|]. split; [|split; [|split]].
  - by apply (calc_orbits_rows_length ode bodies f t0 t1 dt _ Hy0).
  - constructor.
    + rewrite set_initial_length. lia.
    + apply stored_length in Hst. eapply Forall_impl; [exact Hst|].
      simpl. intros row ->. lia.
  - by apply store_orbits_column_names.
  - apply column_names_length.
Qed.

(** C6, as stated, fails: the rows of a returned trajectory do not have the
    State Vector's columns plus a time column.  For a single body and one
    sample the only row has four entries. *)
Lemma calc_orbits_no_time_column :
  ∃ y, calc_orbits (Euler.api string) lone n_body_func 0%R 1%R 1 = Ok y ∧
       rows y = [[Fin 0; Fin 1; Fin 0; Fin 1]] ∧
       ¬ time_column_layout lone y.
Proof.
  eexists. split; [reflexivity|]. split; [reflexivity|].
  unfold time_column_layout. simpl. intros Hrow.
  apply Forall_cons in Hrow as [Hrow _]. simpl in Hrow. lia.
Qed.

(** ** The evaluator on the store refines the evaluator on values *)

Section heap.
Context {N : Type}.
Implicit Types (h : Heap.heap N) (pv d : Heap.loc) (v pvc : list num).
Implicit Types (bodies : list (Body.t num N)) (refs : list Heap.loc).

Lemma bind_ok {A B} (m : Heap.M N A) (k : A → Heap.M N B) h a h' :
  m h = Ok (a, h') → (m ≫= k) h = k a h'.
Proof. intros Hm. unfold mbind, Heap.M_bind. by rewrite Hm. Qed.

Lemma bind_raise {A B} (m : Heap.M N A) (k : A → Heap.M N B) h e :
  m h = Raise e → (m ≫= k) h = Raise e.
Proof. intros Hm. unfold mbind, Heap.M_bind. by rewrite Hm. Qed.

Lemma upd_upd h d v v' : Heap.upd (Heap.upd h d v) d v' = Heap.upd h d v'.
Proof.
  unfold Heap.upd, Heap.set_arrays. simpl. by rewrite insert_insert_eq.
Qed.

Lemma read_array_upd h d v : Heap.read_array d (Heap.upd h d v) = Ok (v, Heap.upd h d v).
Proof.
  unfold Heap.read_array, Heap.upd. simpl. by rewrite lookup_insert_eq.
Qed.

Lemma read_array_other h pv d v pvc :
  Heap.arrays h !! pv = Some pvc → pv ≠ d →
  Heap.read_array pv (Heap.upd h d v) = Ok (pvc, Heap.upd h d v).
Proof.
  intros Hpv Hne. unfold Heap.read_array, Heap.upd. simpl.
  rewrite lookup_insert_ne by done. by rewrite Hpv.
Qed.

Lemma heap_getitem h pv d v pvc k :
  Heap.arrays h !! pv = Some pvc → pv ≠ d →
  Heap.getitem pv k (Heap.upd h d v)
  = Heap.lift (getitem pvc k) (Heap.upd h d v).
Proof.
  intros Hpv Hne. unfold Heap.getitem.
  rewrite (bind_ok _ _ _ _ _ (read_array_other h pv d v pvc Hpv Hne)).
  done.
Qed.

Lemma heap_getslice h pv d v pvc a b c :
  Heap.arrays h !! pv = Some pvc → pv ≠ d →
  Heap.getslice pv a b c (Heap.upd h d v)
  = Ok (getslice pvc a b c, Heap.upd h d v).
Proof.
  intros Hpv Hne. unfold Heap.getslice.
  rewrite (bind_ok _ _ _ _ _ (read_array_other h pv d v pvc Hpv Hne)).
  done.
Qed.

Lemma heap_len_array h d v :
  Heap.len_array d (Heap.upd h d v) = Ok (length v, Heap.upd h d v).
Proof.
  unfold Heap.len_array.
  by rewrite (bind_ok _ _ _ _ _ (read_array_upd h d v)).
Qed.

Lemma heap_len_array_other h pv d v pvc :
  Heap.arrays h !! pv = Some pvc → pv ≠ d →
  Heap.len_array pv (Heap.upd h d v) = Ok (length pvc, Heap.upd h d v).
Proof.
  intros Hpv Hne. unfold Heap.len_array.
  by rewrite (bind_ok _ _ _ _ _ (read_array_other h pv d v pvc Hpv Hne)).
Qed.

Lemma heap_setitem h d v k x :
  Heap.setitem d k x (Heap.upd h d v) = Heap.stores h d (setitem v k x).
Proof.
  unfold Heap.setitem, setitem.
  rewrite (bind_ok _ _ _ _ _ (read_array_upd h d v)).
  destruct (decide (k < length v)); [|done].
  unfold Heap.write_array. simpl. f_equal. f_equal. apply upd_upd.
Qed.

Lemma heap_setslice h d v a b c src :
  Heap.setslice d a b c src (Heap.upd h d v) = Heap.stores h d (setslice v a b c src).
Proof.
  unfold Heap.setslice, setslice.
  rewrite (bind_ok _ _ _ _ _ (read_array_upd h d v)).
  destruct (broadcast_to _ src) as [vals|e] eqn:Hb.
  - erewrite bind_ok by (unfold Heap.lift; done).
    unfold Heap.write_array. simpl. f_equal. f_equal. apply upd_upd.
  - by erewrite bind_raise by (unfold Heap.lift; done).
Qed.
End heap.

Section heap_loops.
Context {N : Type}.
Implicit Types (h : Heap.heap N) (pv bl d : Heap.loc) (v pvc : list num).
Implicit Types (bodies : list (Body.t num N)) (refs : list Heap.loc).

Lemma heap_enumerate_list h bl d v refs :
  Heap.lists h !! bl = Some refs →
  Heap.enumerate_list bl (Heap.upd h d v) = Ok (enumerate refs, Heap.upd h d v).
Proof. intros Hbl. unfold Heap.enumerate_list. simpl. by rewrite Hbl. Qed.

Lemma heap_len_list h bl refs :
  Heap.lists h !! bl = Some refs → Heap.len_list bl h = Ok (length refs, h).
Proof. intros Hbl. unfold Heap.len_list. simpl. by rewrite Hbl. Qed.

Lemma heap_get_mass h d v o b :
  Heap.objects h !! o = Some b →
  Heap.get_mass o (Heap.upd h d v) = Ok (Body.mass b, Heap.upd h d v).
Proof. intros Ho. unfold Heap.get_mass. simpl. by rewrite Ho. Qed.

Lemma heap_inner_body h pv d v pvc i x y acc j o b :
  Heap.arrays h !! pv = Some pvc → pv ≠ d →
  Heap.objects h !! o = Some b →
  Heap.inner_body pv i x y acc (j, o) (Heap.upd h d v)
  = Heap.lift (inner_body pvc i x y acc (j, b)) (Heap.upd h d v).
Proof.
  intros Hpv Hne Ho. unfold Heap.inner_body, inner_body.
  destruct acc as [ax ay]. destruct (decide (i ≠ j)); [|done].
  unfold mbind at 1, Heap.M_bind at 1.
  rewrite (heap_getitem h pv d v pvc) by done.
  destruct (getitem pvc (j * 4)) as [xo|]; [|done]. simpl.
  unfold mbind at 1, Heap.M_bind at 1.
  rewrite (heap_getitem h pv d v pvc) by done.
  destruct (getitem pvc (j * 4 + 2)) as [yo|]; [|done]. simpl.
  by rewrite (bind_ok _ _ _ _ _ (heap_get_mass h d v o b Ho)).
Qed.

Lemma heap_inner_loop h pv d v pvc i x y refs bodies :
  Heap.arrays h !! pv = Some pvc → pv ≠ d →
  Forall2 (λ o b, Heap.objects h !! o = Some b) refs bodies →
  ∀ start acc,
    Heap.for_each (Heap.inner_body pv i x y)
      (zip (seq start (length refs)) refs) acc (Heap.upd h d v)
    = Heap.lift (for_each (inner_body pvc i x y)
                   (zip (seq start (length bodies)) bodies) acc)
                (Heap.upd h d v).
Proof.
  intros Hpv Hne. induction 1 as [|o b refs bodies Ho _ IH]; intros start acc.
  - done.
  - cbn [length seq zip zip_with Heap.for_each for_each].
    unfold mbind at 1, Heap.M_bind at 1.
    rewrite (heap_inner_body h pv d v pvc i x y acc start o b) by done.
    destruct (inner_body pvc i x y acc (start, b)) as [acc'|]; [|done].
    simpl. apply IH.
Qed.

Lemma heap_outer_body h pv bl d v pvc refs bodies i o b :
  Heap.arrays h !! pv = Some pvc → pv ≠ d →
  Heap.lists h !! bl = Some refs →
  Forall2 (λ o b, Heap.objects h !! o = Some b) refs bodies →
  Heap.outer_body pv bl d () (i, o) (Heap.upd h d v)
  = Heap.stores h d (outer_body pvc bodies v (i, b)).
Proof.
  intros Hpv Hne Hbl Hobj. unfold Heap.outer_body, outer_body.
  cbn [fst].
  unfold mbind at 1, Heap.M_bind at 1.
  rewrite (heap_getitem h pv d v pvc) by done.
  destruct (getitem pvc (i * 4)) as [x|]; [|done]. simpl.
  unfold mbind at 1, Heap.M_bind at 1.
  rewrite (heap_getitem h pv d v pvc) by done.
  destruct (getitem pvc (i * 4 + 2)) as [y|]; [|done]. simpl.
  rewrite (bind_ok _ _ _ _ _ (heap_enumerate_list h bl d v refs Hbl)).
  unfold mbind at 1, Heap.M_bind at 1. unfold enumerate.
  rewrite (heap_inner_loop h pv d v pvc i x y refs bodies) by done.
  destruct (for_each _ _ _) as [acc|]; [|done]. simpl.
  unfold mbind at 1, Heap.M_bind at 1.
  rewrite heap_setitem.
  destruct (setitem v (i * 4 + 1) acc.1) as [v1|]; [|done]. simpl.
  apply heap_setitem.
Qed.

Lemma heap_outer_loop h pv bl d pvc refs bodies :
  Heap.arrays h !! pv = Some pvc → pv ≠ d →
  Heap.lists h !! bl = Some refs →
  Forall2 (λ o b, Heap.objects h !! o = Some b) refs bodies →
  ∀ refs' bodies',
    Forall2 (λ o b, Heap.objects h !! o = Some b) refs' bodies' →
    ∀ start v,
      Heap.for_each (Heap.outer_body pv bl d)
        (zip (seq start (length refs')) refs') () (Heap.upd h d v)
      = Heap.stores h d
          (for_each (outer_body pvc bodies)
             (zip (seq start (length bodies')) bodies') v).
Proof.
  intros Hpv Hne Hbl Hobj.
  induction 1 as [|o b refs' bodies' Ho _ IH]; intros start v.
  - done.
  - cbn [length seq zip zip_with Heap.for_each for_each].
    unfold mbind at 1, Heap.M_bind at 1.
    rewrite (heap_outer_body h pv bl d v pvc refs bodies start o b) by done.
    destruct (outer_body pvc bodies v (start, b)) as [v'|]; [|done].
    simpl. apply IH.
Qed.
End heap_loops.

Section heap_refinement.
Context {N : Type}.
Implicit Types (h : Heap.heap N) (pv bl d : Heap.loc) (pvc : list num).
Implicit Types (bodies : list (Body.t num N)) (refs : list Heap.loc).

Lemma deref_bodies_inv h bl bodies :
  Heap.deref_bodies h bl = Some bodies →
  ∃ refs, Heap.lists h !! bl = Some refs ∧
          Forall2 (λ o b, Heap.objects h !! o = Some b) refs bodies.
Proof.
  unfold Heap.deref_bodies. destruct (Heap.lists h !! bl) as [refs|]; [|done].
  simpl. intros Hm%mapM_Some. by exists refs.
Qed.

(** The call on the store allocates one array, at a fresh address, fills
    it with what [n_body_func] computes from the contents of its
    arguments, and changes nothing else; it raises when [n_body_func]
    does. *)
Lemma heap_n_body_func h (t : time) pv bl pvc bodies :
  Heap.arrays h !! pv = Some pvc →
  Heap.deref_bodies h bl = Some bodies →
  Heap.n_body_func t pv bl h
  = match n_body_func t pvc bodies with
    | Ok r => Ok (fresh (dom (Heap.arrays h)),
                  Heap.upd h (fresh (dom (Heap.arrays h))) r)
    | Raise e => Raise e
    end.
Proof.
  intros Hpv (refs & Hbl & Hobj)%deref_bodies_inv.
  pose proof (Forall2_length _ _ _ Hobj) as Hlen.
  set (d := fresh (dom (Heap.arrays h))).
  assert (pv ≠ d) as Hne.
  { intros ->. apply (is_fresh (dom (Heap.arrays h))).
    apply elem_of_dom. by eexists. }
  unfold Heap.n_body_func, n_body_func.
  rewrite (bind_ok _ _ _ _ _ (heap_len_list h bl refs Hbl)).
  rewrite (bind_ok _ _ h d (Heap.upd h d (np_zeros (4 * length refs))))
    by done.
  rewrite (bind_ok _ _ _ _ _ (heap_len_array h d _)).
  rewrite (bind_ok _ _ _ _ _ (heap_len_array_other h pv d _ pvc Hpv Hne)).
  rewrite (bind_ok _ _ _ _ _ (heap_getslice h pv d _ pvc _ _ _ Hpv Hne)).
  rewrite Hlen.
  unfold mbind at 1, Heap.M_bind at 1. rewrite heap_setslice.
  destruct (setslice (np_zeros (4 * length bodies)) 0 _ 4 _) as [d1|]; [|done].
  simpl.
  rewrite (bind_ok _ _ _ _ _ (heap_len_array h d _)).
  rewrite (bind_ok _ _ _ _ _ (heap_len_array_other h pv d _ pvc Hpv Hne)).
  rewrite (bind_ok _ _ _ _ _ (heap_getslice h pv d _ pvc _ _ _ Hpv Hne)).
  unfold mbind at 1, Heap.M_bind at 1. rewrite heap_setslice.
  destruct (setslice d1 2 _ 4 _) as [d2|]; [|done]. simpl.
  rewrite (bind_ok _ _ _ _ _ (heap_enumerate_list h bl d _ refs Hbl)).
  unfold mbind at 1, Heap.M_bind at 1. unfold enumerate.
  rewrite (heap_outer_loop h pv bl d pvc refs bodies Hpv Hne Hbl Hobj
             refs bodies Hobj 0 d2).
  by destruct (for_each _ _ _) as [d3|].
Qed.
End heap_refinement.

(** C10.  [n_body_func] is a pure function of [(t, pos_vel_array, bodies)]:
    called on a store, what it returns (the derivative array, or the
    exception) is what the function on values computes from [t], the contents
    of the State Vector and the bodies; it writes only into the array it has
    allocated, at an address not in use before, and leaves the State Vector,
    the list of bodies, every [Body] object and every other array as they
    were; and a call with equal arguments, in any store, returns an equal
    result. *)
Theorem n_body_func_pure {N} (h : Heap.heap N) (t : time)
    (pos_vel_array bodies : Heap.loc) (state : list num)
    (body_list : list (Body.t num N)) :
  Heap.arrays h !! pos_vel_array = Some state →
  Heap.deref_bodies h bodies = Some body_list →
  Heap.returned (Heap.n_body_func t pos_vel_array bodies h)
  = n_body_func t state body_list ∧
  (∀ d h', Heap.n_body_func t pos_vel_array bodies h = Ok (d, h') →
     Heap.arrays h !! d = None ∧
     (∀ a, a ≠ d → Heap.arrays h' !! a = Heap.arrays h !! a) ∧
     Heap.arrays h' !! pos_vel_array = Some state ∧
     Heap.lists h' = Heap.lists h ∧
     Heap.objects h' = Heap.objects h ∧
     Heap.deref_bodies h' bodies = Some body_list) ∧
  (∀ (h2 : Heap.heap N) (pos_vel_array2 bodies2 : Heap.loc),
     Heap.arrays h2 !! pos_vel_array2 = Some state →
     Heap.deref_bodies h2 bodies2 = Some body_list →
     Heap.returned (Heap.n_body_func t pos_vel_array2 bodies2 h2)
     = Heap.returned (Heap.n_body_func t pos_vel_array bodies h)).
Proof.
  intros Hpv Hbodies.
  assert (∀ (h2 : Heap.heap N) pv2 bl2,
            Heap.arrays h2 !! pv2 = Some state →
            Heap.deref_bodies h2 bl2 = Some body_list →
            Heap.returned (Heap.n_body_func t pv2 bl2 h2)
            = n_body_func t state body_list) as Hvalue.
  { intros h2 pv2 bl2 Hpv2 Hbl2.
    rewrite (heap_n_body_func h2 t pv2 bl2 state body_list Hpv2 Hbl2).
    destruct (n_body_func t state body_list) as [r|e]; [|done].
    simpl. by rewrite lookup_insert_eq. }
  split; [by apply Hvalue|]. split.
  - rewrite (heap_n_body_func h t pos_vel_array bodies state body_list Hpv Hbodies).
    set (d0 := fresh (dom (Heap.arrays h))).
    assert (Heap.arrays h !! d0 = None) as Hfresh.
    { apply not_elem_of_dom. apply is_fresh. }
    intros d h' Hcall.
    destruct (n_body_func t state body_list) as [r|e]; [|done].
    injection Hcall as <- <-. split; [done|]. split; [|split].
    + intros a Ha. simpl. by rewrite lookup_insert_ne.
    + simpl. rewrite lookup_insert_ne; [done|]. intros <-. congruence.
    + done.
  - intros h2 pv2 bl2 Hpv2 Hbl2.
    by rewrite (Hvalue h2 pv2 bl2), (Hvalue h pos_vel_array bodies).
Qed.

(** * The theorems at sample inputs *)

Lemma pair_state_vector : state_vector (length pair) pair_state.
Proof. split; [done|]. repeat constructor. Qed.

Lemma pair_real_masses : real_masses pair.
Proof. repeat constructor. Qed.

Lemma pair_positive_masses : positive_masses pair.
Proof. repeat constructor; eexists; (split; [reflexivity|lra]). Qed.

Lemma pair_distinct : pairwise_distinct (length pair) pair_state.
Proof.
  intros i j Hi Hj Hij [Hx _]. simpl in Hi, Hj.
  destruct i as [|[|i]], j as [|[|j]]; try lia;
    unfold comp in Hx; simpl in Hx; injection Hx; lra.
Qed.

Lemma n_body_func_newton_witness :
  ∃ d, n_body_func 0%R pair_state pair = Ok d ∧
       length d = length pair_state ∧
       ∀ i, i < length pair →
         d !! (4 * i) = pair_state !! (4 * i + 1) ∧
         d !! (4 * i + 2) = pair_state !! (4 * i + 3) ∧
         d !! (4 * i + 1) = Some (Fin (newton_accel 0 pair_state pair i)) ∧
         d !! (4 * i + 3) = Some (Fin (newton_accel 2 pair_state pair i)).
Proof.
  apply (n_body_func_newton 0%R pair_state pair).
  - exact pair_state_vector.
  - exact pair_real_masses.
  - exact pair_distinct.
Defined.

Lemma n_body_func_momentum_witness :
  ∃ d, n_body_func 0%R pair_state pair = Ok d ∧
       momentum_rate 1 pair d = Fin 0 ∧ momentum_rate 3 pair d = Fin 0.
Proof.
  apply (n_body_func_momentum 0%R pair_state pair).
  - exact pair_positive_masses.
  - exact pair_state_vector.
  - exact pair_distinct.
Defined.

Lemma n_body_func_singular_witness :
  ∃ d, n_body_func 0%R (set_initial twins) twins = Ok d ∧
       d !! (4 * 0 + 1) = Some NaN ∧ d !! (4 * 0 + 3) = Some NaN.
Proof.
  apply (n_body_func_singular 0%R (set_initial twins) twins 0 1).
  - reflexivity.
  - simpl. lia.
  - simpl. lia.
  - lia.
  - split; reflexivity.
Defined.

Lemma n_body_func_degenerate_witness :
  ∃ d, n_body_func 0%R (set_initial lone) lone = Ok d ∧
       length d = 4 * length lone ∧
       ∀ i, i < length lone →
         d !! (4 * i + 1) = Some (Fin 0) ∧ d !! (4 * i + 3) = Some (Fin 0).
Proof.
  apply (n_body_func_degenerate 0%R (set_initial lone) lone).
  - simpl. lia.
  - reflexivity.
Defined.

Lemma config_example_keys : Forall has_required_keys config_example.
Proof.
  constructor; [|constructor].
  intros key Hkey. unfold required_keys in Hkey.
  repeat (apply elem_of_cons in Hkey as [->|Hkey]; [by eexists|]).
  by apply elem_of_nil in Hkey.
Qed.

Lemma load_body_swaps_y_and_vx_witness :
  ∃ bodies,
    load_bodies config_example = Ok bodies ∧
    Forall2 (λ b body,
               load_body b = Ok body ∧
               Some (Body.vx body) = b !! "y"%string ∧
               Some (Body.y body) = b !! "vx"%string)
            config_example bodies ∧
    Some <$> set_initial bodies
    = concat (map (λ b : gmap string json,
                     [b !! "x"%string; b !! "y"%string;
                      b !! "vx"%string; b !! "vy"%string]) config_example).
Proof.
  apply (load_body_swaps_y_and_vx config_example).
  exact config_example_keys.
Defined.

Lemma lone_orbit_returned :
  calc_orbits (Euler.api string) lone n_body_func 0%R 1%R 1 = Ok lone_orbit.
Proof. reflexivity. Qed.

Lemma calc_orbits_first_row_witness :
  ∃ row, rows lone_orbit !! 0 = Some row ∧
         row = set_initial lone ∧
         row = concat (map block lone) ∧
         ∀ i body, lone !! i = Some body →
           row !! (4 * i) = Some (Body.x body) ∧
           row !! (4 * i + 1) = Some (Body.vx body) ∧
           row !! (4 * i + 2) = Some (Body.y body) ∧
           row !! (4 * i + 3) = Some (Body.vy body).
Proof.
  apply (calc_orbits_first_row (Euler.api string) lone n_body_func 0%R 1%R 1).
  exact lone_orbit_returned.
Defined.

Lemma calc_orbits_row_layout_witness :
  ncols lone_orbit = 4 * length lone ∧
  length (rows lone_orbit) = Z.to_nat 1 ∧
  Forall (λ row, length row = 4 * length lone) (rows lone_orbit) ∧
  store_orbits_columns lone lone_orbit = Ok (column_names lone) ∧
  length (column_names lone) = 4 * length lone.
Proof.
  apply (calc_orbits_row_layout (Euler.api string) lone n_body_func 0%R 1%R 1).
  exact lone_orbit_returned.
Defined.

Lemma calc_orbits_sampling_witness :
  length (output_times 0 1 2) = Z.to_nat 2 ∧
  output_times 0 1 2 !! 0 = Some 0%R ∧
  output_times 0 1 2 !! (Z.to_nat 2 - 1) = Some 1%R ∧
  ∀ i a b, output_times 0 1 2 !! i = Some a →
           output_times 0 1 2 !! S i = Some b →
           (b - a = (1 - 0) / (IZR 2 - 1))%R.
Proof.
  apply (calc_orbits_sampling (Euler.api string) lone n_body_func 0%R 1%R 2).
  lia.
Defined.

(** One Euler step of [lone] over the grid of two samples. *)
Lemma lone_step :
  let out := zip_with (λ a b, add a (mul (Fin (0 + INR 1 * ((1 - 0) / (IZR 2 - 1)) - 0)) b))
               (set_initial lone) (derivative (set_initial lone) lone) in
  ode_run (Euler.api string)
    (ode_setup (Euler.api string) n_body_func "dop853" rtol atol
       (set_initial lone) 0%R lone)
    (tail (output_times 0 1 2)) [out]
    (Euler.mk_state n_body_func out (0 + INR 1 * ((1 - 0) / (IZR 2 - 1)))%R lone
       (forallb is_finite_b out)) ∧
  Forall (λ out, length out = length lone * 4) [out].
Proof.
  intros out. split.
  - eapply ode_run_cons; [|constructor].
    simpl. unfold Euler.integrate. simpl Euler.f. simpl Euler.y.
    simpl Euler.t. simpl Euler.f_params.
    rewrite (n_body_func_derivative (N := string) _ (set_initial lone) lone eq_refl).
    cbn [mbind result_bind].
    by replace (forallb is_finite_b (derivative (set_initial lone) lone))
      with true by reflexivity.
  - constructor; [|constructor].
    unfold out. by rewrite length_zip_with, derivative_length.
Qed.

Lemma calc_orbits_keeps_solver_states_witness :
  ∃ out, calc_orbits (with_successful (Euler.api string) (λ _, false))
           lone n_body_func 0%R 1%R 2
         = Ok {| nrows := Z.to_nat 2; ncols := length lone * 4;
                 rows := [set_initial lone; out] |}.
Proof.
  destruct lone_step as [Hrun Hlen]. eexists.
  apply (calc_orbits_keeps_solver_states (Euler.api string) (λ _, false)
           lone n_body_func 0%R 1%R 2 (output_times 0 1 2) _ _
           ltac:(lia) (np_linspace_output_times 0 1 2 ltac:(lia)) Hrun Hlen).
Defined.

Lemma n_body_func_pure_witness :
  Heap.returned (Heap.n_body_func 0 0 1 heap_example)
  = n_body_func 0 (set_initial lone) lone ∧
  (∀ d h', Heap.n_body_func 0 0 1 heap_example = Ok (d, h') →
     Heap.arrays heap_example !! d = None ∧
     (∀ a, a ≠ d → Heap.arrays h' !! a = Heap.arrays heap_example !! a) ∧
     Heap.arrays h' !! 0 = Some (set_initial lone) ∧
     Heap.lists h' = Heap.lists heap_example ∧
     Heap.objects h' = Heap.objects heap_example ∧
     Heap.deref_bodies h' 1 = Some lone) ∧
  (∀ (h2 : Heap.heap string) (pos_vel_array2 bodies2 : Heap.loc),
     Heap.arrays h2 !! pos_vel_array2 = Some (set_initial lone) →
     Heap.deref_bodies h2 bodies2 = Some lone →
     Heap.returned (Heap.n_body_func 0 pos_vel_array2 bodies2 h2)
     = Heap.returned (Heap.n_body_func 0 0 1 heap_example)).
Proof.
  apply (n_body_func_pure heap_example 0%R 0 1 (set_initial lone) lone).
  - reflexivity.
  - reflexivity.
Defined.

(** * Further properties of the program *)

(** ** Loops, continued *)

Lemma for_each_app {A St} (body : St → A → result St) (l1 l2 : list A) (s : St) :
  for_each body (l1 ++ l2) s = (s' ← for_each body l1 s; for_each body l2 s').
Proof.
  revert s. induction l1 as [|x l1 IH]; intros s; simpl; [done|].
  destruct (body s x) as [s1|e]; simpl; [apply IH|done].
Qed.

Lemma for_each_ext {A St} (body1 body2 : St → A → result St) (l : list A) (s : St) :
  (∀ s' x, x ∈ l → body1 s' x = body2 s' x) →
  for_each body1 l s = for_each body2 l s.
Proof.
  revert s. induction l as [|x l IH]; intros s Hext; simpl; [done|].
  rewrite (Hext s x) by (by left).
  destruct (body2 s x) as [s1|e]; simpl; [|done].
  apply IH. intros s' x' Hx'. apply Hext. by right.
Qed.

(** ** The loader *)

Section loader_errors.
Context {J : Type}.
Implicit Types (b : gmap string J) (config : list (gmap string J)).

Lemma load_body_check_ok b (keys : list string) :
  Forall (λ key, is_Some (b !! key)) keys →
  for_each (λ (_ : unit) key,
              if decide (is_Some (b !! key)) then Ok ()
              else Raise (missing_value key)) keys ()
  = Ok ().
Proof.
  induction 1 as [|key keys Hkey _ IH]; simpl; [done|].
  by rewrite decide_True.
Qed.

Lemma load_body_inv b body :
  load_body b = Ok body → has_required_keys b.
Proof.
  unfold load_body, has_required_keys, required_keys. simpl.
  repeat (match goal with
          | |- context [decide (is_Some (b !! ?k))] =>
              destruct (decide (is_Some (b !! k))); simpl; [|done]
          end).
  intros _ key Hkey.
  repeat (apply elem_of_cons in Hkey as [->|Hkey]; [done|]).
  by apply elem_of_nil in Hkey.
Qed.
End loader_errors.

Section loader_print.
Context {J : Type}.
Implicit Types (b : gmap string J) (print : J → result ()).

Lemma stdout_load_body_inv print b body :
  Stdout.load_body print b = Ok body → has_required_keys b.
Proof.
  unfold Stdout.load_body, has_required_keys, required_keys. simpl.
  repeat (match goal with
          | |- context [decide (is_Some (b !! ?k))] =>
              destruct (decide (is_Some (b !! k))); simpl; [|done]
          end).
  intros _ key Hkey.
  repeat (apply elem_of_cons in Hkey as [->|Hkey]; [done|]).
  by apply elem_of_nil in Hkey.
Qed.

(** With the six keys present, [load_body] is the [print] of the name
    followed by the [return] of the body. *)
Lemma stdout_load_body_keys print b :
  has_required_keys b →
  ∃ body, load_body b = Ok body ∧
          b !! "name"%string = Some (Body.name body) ∧
          Stdout.load_body print b = (_ ← print (Body.name body); Ok body).
Proof.
  intros Hkeys. unfold Stdout.load_body, load_body, required_keys in *.
  destruct (Hkeys "x"%string) as [x Hx]; [set_solver|].
  destruct (Hkeys "y"%string) as [y Hy]; [set_solver|].
  destruct (Hkeys "vx"%string) as [vx Hvx]; [set_solver|].
  destruct (Hkeys "vy"%string) as [vy Hvy]; [set_solver|].
  destruct (Hkeys "mass"%string) as [mass Hmass]; [set_solver|].
  destruct (Hkeys "name"%string) as [name Hname]; [set_solver|].
  simpl. rewrite Hx, Hy, Hvx, Hvy, Hmass, Hname. simpl.
  eexists. split; [done|]. done.
Qed.
End loader_print.

(** X1.  [load_body], its [print] included, returns a body exactly when the
    dict has the six keys ["x"], ["y"], ["vx"], ["vy"], ["mass"] and ["name"]
    and the [print] of the name returns; the body is then the one the keys
    give.  With the six keys present, an exception of the [print] leaves
    [load_body] as it is. *)
Theorem load_body_returns_iff {J} (print : J → result ()) (b : gmap string J) :
  (∀ body, Stdout.load_body print b = Ok body ↔
           has_required_keys b ∧ load_body b = Ok body ∧
           print (Body.name body) = Ok ()) ∧
  (∀ name e, has_required_keys b → b !! "name"%string = Some name →
             print name = Raise e → Stdout.load_body print b = Raise e).
Proof.
  split.
  - intros body. split.
    + intros Hbody. pose proof (stdout_load_body_inv print b body Hbody) as Hkeys.
      destruct (stdout_load_body_keys print b Hkeys) as (body' & Hload & _ & Heq).
      rewrite Heq in Hbody.
      destruct (print (Body.name body')) as [[]|e] eqn:Hprint; [|done].
      injection Hbody as <-. done.
    + intros (Hkeys & Hload & Hprint).
      destruct (stdout_load_body_keys print b Hkeys) as (body' & Hload' & _ & Heq).
      assert (body' = body) as -> by congruence.
      by rewrite Heq, Hprint.
  - intros name e Hkeys Hname Hprint.
    destruct (stdout_load_body_keys print b Hkeys) as (body & _ & Hname' & Heq).
    assert (Body.name body = name) as Hn by congruence.
    by rewrite Heq, Hn, Hprint.
Qed.

(** X2.  When a key is missing, [load_body] raises the exception that names
    the first missing key, in the order ["x"], ["y"], ["vx"], ["vy"],
    ["mass"], ["name"], whatever else the dict holds or lacks. *)
Theorem load_body_first_missing_key {J} (b : gmap string J)
    (present : list string) (key : string) (rest : list string) :
  required_keys = present ++ key :: rest →
  Forall (λ k, is_Some (b !! k)) present →
  b !! key = None →
  load_body b
  = Raise (Exception ("'" +:+ key +:+ "' value missing, unable to load body")).
Proof.
  intros Hkeys Hpresent Hmissing. unfold load_body. rewrite Hkeys.
  rewrite for_each_app, load_body_check_ok by done. simpl.
  rewrite decide_False; [done|].
  rewrite Hmissing. by intros [? ?].
Qed.

Lemma load_body_first_missing_key_witness :
  load_body (<["x"%string := JNum 1]> (<["y"%string := JNum 2]>
            (<["name"%string := JStr "sun"]> ∅)))
  = Raise (Exception "'vx' value missing, unable to load body").
Proof.
  apply (load_body_first_missing_key _ ["x"; "y"]%string "vx"%string
           ["vy"; "mass"; "name"]%string).
  - reflexivity.
  - repeat constructor; by eexists.
  - reflexivity.
Defined.

(** X3.  [load_body] reads the six required keys only: any other key of the
    dict, whatever its value, changes nothing. *)
Theorem load_body_ignores_other_keys {J} (b : gmap string J)
    (key : string) (value : J) :
  key ∉ required_keys →
  load_body (<[key := value]> b) = load_body b.
Proof.
  intros Hkey. unfold load_body.
  assert (∀ k, k ∈ required_keys → <[key := value]> b !! k = b !! k) as Hsame.
  { intros k Hk. apply lookup_insert_ne. by intros ->. }
  rewrite (for_each_ext _
             (λ (_ : unit) key0,
                if decide (is_Some (b !! key0)) then Ok ()
                else Raise (missing_value key0))).
  - rewrite !Hsame by (unfold required_keys; set_solver). done.
  - intros [] k Hk. by rewrite Hsame.
Qed.

Lemma load_body_ignores_other_keys_witness :
  load_body (<["colour"%string := JStr "red"]>
               (default ∅ (config_example !! 0)))
  = load_body (default ∅ (config_example !! 0)).
Proof.
  apply (load_body_ignores_other_keys _ "colour"%string (JStr "red")).
  unfold required_keys. intros Hin.
  repeat (apply elem_of_cons in Hin as [Hin|Hin]; [discriminate|]).
  by apply elem_of_nil in Hin.
Defined.

Lemma load_bodies_acc {J} (config : list (gmap string J))
    (acc bodies : list (Body.t J J)) :
  for_each (λ bodies b, body ← load_body b; Ok (bodies ++ [body])) config acc
  = Ok bodies ↔
  ∃ new, bodies = acc ++ new ∧
         Forall2 (λ b body, load_body b = Ok body) config new.
Proof.
  revert acc. induction config as [|b config IH]; intros acc; simpl.
  - split.
    + intros [= <-]. exists []. by rewrite app_nil_r.
    + intros (new & -> & Hnew). inversion Hnew. by rewrite app_nil_r.
  - destruct (load_body b) as [body|e] eqn:Hb; simpl.
    + rewrite IH. split.
      * intros (new & -> & Hnew). exists (body :: new).
        rewrite <- app_assoc. split; [done|]. by constructor.
      * intros (new & -> & Hnew).
        inversion Hnew as [|? body' ? new' Hb' Hnew']; subst.
        assert (body' = body) as -> by congruence.
        exists new'. by rewrite <- app_assoc.
    + split; [done|]. intros (new & _ & Hnew).
      inversion Hnew; congruence.
Qed.

(** X4.  [load_bodies] returns a list exactly when every dict of the
    configuration loads; the list then has one body per dict, in the order of
    the configuration, each the body [load_body] makes of its dict. *)
Theorem load_bodies_returns_iff {J} (config : list (gmap string J))
    (bodies : list (Body.t J J)) :
  load_bodies config = Ok bodies ↔
  Forall2 (λ b body, load_body b = Ok body) config bodies.
Proof.
  unfold load_bodies. rewrite load_bodies_acc. split.
  - by intros (new & -> & Hnew).
  - intros Hall. by exists bodies.
Qed.

(** X5.  [load_bodies] stops at the first dict that does not load and raises
    that dict's exception; the bodies loaded before it are lost and the dicts
    after it are not looked at. *)
Theorem load_bodies_first_failure {J} (loaded : list (gmap string J))
    (b : gmap string J) (rest : list (gmap string J)) (e : exn) :
  Forall has_required_keys loaded →
  load_body b = Raise e →
  load_bodies (loaded ++ b :: rest) = Raise e.
Proof.
  intros Hloaded Hb. unfold load_bodies.
  rewrite for_each_app.
  destruct (load_bodies_loop loaded Hloaded []) as (bodies & -> & _).
  simpl. by rewrite Hb.
Qed.

Lemma load_bodies_first_failure_witness :
  load_bodies (config_example ++ ∅ :: config_example)
  = Raise (Exception "'x' value missing, unable to load body").
Proof.
  apply (load_bodies_first_failure config_example ∅ config_example).
  - exact config_example_keys.
  - reflexivity.
Defined.

(** ** The force field evaluator: what it reads *)

Lemma foldl_ext_in {A B} (f g : A → B → A) (l : list B) (a : A) :
  (∀ a' x, x ∈ l → f a' x = g a' x) → foldl f a l = foldl g a l.
Proof.
  revert a. induction l as [|x l IH]; intros a Hext; simpl; [done|].
  rewrite (Hext a x) by (by left). apply IH.
  intros a' x' Hx'. apply Hext. by right.
Qed.

Section reads.
Context {N : Type}.
Implicit Types (pv : list num) (bodies : list (Body.t num N)).

Lemma pull_ext c pv pv' bodies bodies' i j :
  comp pv (i * 4 + c) = comp pv' (i * 4 + c) →
  comp pv (j * 4 + c) = comp pv' (j * 4 + c) →
  comp pv (i * 4) = comp pv' (i * 4) →
  comp pv (j * 4) = comp pv' (j * 4) →
  comp pv (i * 4 + 2) = comp pv' (i * 4 + 2) →
  comp pv (j * 4 + 2) = comp pv' (j * 4 + 2) →
  mass_of bodies j = mass_of bodies' j →
  pull c pv bodies i j = pull c pv' bodies' i j.
Proof. intros. unfold pull. congruence. Qed.

Lemma accel_ext pv pv' bodies bodies' i :
  length bodies = length bodies' →
  (∀ j, j < length bodies →
        comp pv (j * 4) = comp pv' (j * 4) ∧
        comp pv (j * 4 + 2) = comp pv' (j * 4 + 2)) →
  (∀ j, j < length bodies → j ≠ i → mass_of bodies j = mass_of bodies' j) →
  i < length bodies →
  accel pv bodies i = accel pv' bodies' i.
Proof.
  intros Hlen Hpos Hmass Hi. unfold accel. rewrite <- Hlen.
  apply foldl_ext_in. intros acc j Hj%elem_of_seq.
  unfold inner_step. destruct (decide (i ≠ j)) as [Hij|]; [|done].
  destruct (Hpos i Hi) as [Hxi Hyi]. destruct (Hpos j) as [Hxj Hyj]; [lia|].
  rewrite (pull_ext 0 pv pv' bodies bodies' i j), (pull_ext 2 pv pv' bodies bodies' i j);
    rewrite ?Nat.add_0_r; try done; apply Hmass; (lia || done).
Qed.
End reads.

(** X6.  On a State Vector of the right length [n_body_func] never raises,
    whatever the values are (non-finite entries and coincident bodies
    included): it returns an array of the same length whose components [4i]
    and [4i+2] are the input's components [4i+1] and [4i+3]. *)
Theorem n_body_func_total {N} (t : time) (pos_vel_array : list num)
    (bodies : list (Body.t num N)) :
  length pos_vel_array = 4 * length bodies →
  ∃ d, n_body_func t pos_vel_array bodies = Ok d ∧
       length d = length pos_vel_array ∧
       ∀ i, i < length bodies →
         d !! (4 * i) = pos_vel_array !! (4 * i + 1) ∧
         d !! (4 * i + 2) = pos_vel_array !! (4 * i + 3).
Proof.
  intros Hlen. exists (derivative pos_vel_array bodies). split; [|split].
  - by apply n_body_func_derivative.
  - by rewrite derivative_length.
  - intros i Hi.
    destruct (derivative_position pos_vel_array bodies i Hi) as [-> ->].
    unfold comp.
    destruct (lookup_lt_is_Some_2 pos_vel_array (4 * i + 1)) as [v1 ->]; [lia|].
    destruct (lookup_lt_is_Some_2 pos_vel_array (4 * i + 3)) as [v3 ->]; [lia|].
    done.
Qed.

Lemma n_body_func_total_witness :
  ∃ d, n_body_func 0 [NaN; PInf; Fin 0; NInf] lone = Ok d ∧
       length d = length [NaN; PInf; Fin 0; NInf] ∧
       ∀ i, i < length lone →
         d !! (4 * i) = [NaN; PInf; Fin 0; NInf] !! (4 * i + 1) ∧
         d !! (4 * i + 2) = [NaN; PInf; Fin 0; NInf] !! (4 * i + 3).
Proof.
  apply (n_body_func_total 0%R [NaN; PInf; Fin 0; NInf] lone).
  reflexivity.
Defined.

(** X7.  The acceleration [n_body_func] returns for body [i] depends only on
    the positions of the bodies and on the masses of the other bodies: two
    calls whose State Vectors agree on every position component and whose
    body lists agree on the mass of every body but [i] return the same
    components [4i+1] and [4i+3], whatever the times, the velocities, the
    names and the mass of body [i] itself are. *)
Theorem n_body_func_acceleration_reads {N} (t t' : time)
    (pos_vel_array pos_vel_array' : list num)
    (bodies bodies' : list (Body.t num N)) (i : nat) :
  length pos_vel_array = 4 * length bodies →
  length pos_vel_array' = 4 * length bodies' →
  length bodies = length bodies' →
  (∀ j, j < length bodies →
        pos_vel_array !! (4 * j) = pos_vel_array' !! (4 * j) ∧
        pos_vel_array !! (4 * j + 2) = pos_vel_array' !! (4 * j + 2)) →
  (∀ j b b', j ≠ i → bodies !! j = Some b → bodies' !! j = Some b' →
             Body.mass b = Body.mass b') →
  i < length bodies →
  ∃ d d', n_body_func t pos_vel_array bodies = Ok d ∧
          n_body_func t' pos_vel_array' bodies' = Ok d' ∧
          d !! (4 * i + 1) = d' !! (4 * i + 1) ∧
          d !! (4 * i + 3) = d' !! (4 * i + 3).
Proof.
  intros Hpv Hpv' Hlen Hpos Hmass Hi.
  exists (derivative pos_vel_array bodies), (derivative pos_vel_array' bodies').
  split; [by apply n_body_func_derivative|].
  split; [by apply n_body_func_derivative|].
  destruct (derivative_velocity pos_vel_array bodies i Hi) as [-> ->].
  destruct (derivative_velocity pos_vel_array' bodies' i) as [-> ->]; [lia|].
  rewrite (accel_ext pos_vel_array pos_vel_array' bodies bodies' i); [done|done| | |done].
  - intros j Hj. unfold comp. rewrite !(Nat.mul_comm j 4).
    destruct (Hpos j Hj) as [-> ->]. done.
  - intros j Hj Hji. unfold mass_of.
    destruct (lookup_lt_is_Some_2 bodies j Hj) as [b Hb].
    destruct (lookup_lt_is_Some_2 bodies' j) as [b' Hb']; [lia|].
    rewrite Hb, Hb'. simpl. by apply (Hmass j b b').
Qed.

Lemma n_body_func_acceleration_reads_witness :
  ∃ d d', n_body_func 0 pair_state pair = Ok d ∧
          n_body_func 1 [Fin 0; Fin 5; Fin 0; Fin 6; Fin 1; Fin 7; Fin 0; Fin 8]
            [Body.init (Fin 0) (Fin 0) (Fin 0) (Fin 0) (Fin 9) "c"%string;
             Body.init (Fin 0) (Fin 0) (Fin 0) (Fin 0) (Fin 2) "d"%string]
          = Ok d' ∧
          d !! (4 * 0 + 1) = d' !! (4 * 0 + 1) ∧
          d !! (4 * 0 + 3) = d' !! (4 * 0 + 3).
Proof.
  apply (n_body_func_acceleration_reads 0%R 1%R pair_state _ pair _ 0).
  - reflexivity.
  - reflexivity.
  - reflexivity.
  - intros [|[|j]] Hj; simpl in Hj; [done|done|lia].
  - intros [|[|j]] b b' Hj Hb Hb'; [done| |done].
    injection Hb as <-. injection Hb' as <-. done.
  - simpl. lia.
Defined.

(** ** The force field evaluator: finite results and moved systems *)

Section whole_array.
Context {N : Type}.
Implicit Types (pv : list num) (bodies : list (Body.t num N)).

(** Every index of the derivative array is one of the four components of a
    body. *)
Lemma index_cases (n k : nat) :
  k < 4 * n →
  ∃ i, i < n ∧ (k = 4 * i ∨ k = 4 * i + 1 ∨ k = 4 * i + 2 ∨ k = 4 * i + 3).
Proof.
  intros Hk. exists (k / 4).
  pose proof (Nat.div_mod_eq k 4) as Hdiv.
  pose proof (Nat.mod_upper_bound k 4) as Hmod.
  split; [apply Nat.Div0.div_lt_upper_bound; lia|]. lia.
Qed.

Lemma derivative_ext pv pv' bodies bodies' :
  length bodies = length bodies' →
  (∀ i, i < length bodies →
        comp pv (4 * i + 1) = comp pv' (4 * i + 1) ∧
        comp pv (4 * i + 3) = comp pv' (4 * i + 3) ∧
        accel pv bodies i = accel pv' bodies' i) →
  derivative pv bodies = derivative pv' bodies'.
Proof.
  intros Hlen Hsame. apply list_eq. intros k.
  destruct (decide (k < 4 * length bodies)) as [Hk|Hk].
  - destruct (index_cases _ _ Hk) as (i & Hi & Hcase).
    destruct (Hsame i Hi) as (Hvx & Hvy & Hacc).
    destruct (derivative_position pv bodies i Hi) as [H0 H2].
    destruct (derivative_velocity pv bodies i Hi) as [H1 H3].
    destruct (derivative_position pv' bodies' i) as [H0' H2']; [lia|].
    destruct (derivative_velocity pv' bodies' i) as [H1' H3']; [lia|].
    destruct Hcase as [->|[->|[->| ->]]]; congruence.
  - rewrite !lookup_ge_None_2; [done| |];
      rewrite derivative_length; lia.
Qed.
End whole_array.

(** X8.  In exact real arithmetic (no rounding, underflow or overflow of the
    [float64] operations): for a State Vector of reals and real masses, the
    derivative [n_body_func] returns is free of infinities and NaN exactly
    when the positions of the bodies are pairwise distinct. *)
Theorem n_body_func_finite_iff {N} (t : time) (pos_vel_array : list num)
    (bodies : list (Body.t num N)) :
  state_vector (length bodies) pos_vel_array →
  real_masses bodies →
  ∃ d, n_body_func t pos_vel_array bodies = Ok d ∧
       (Forall is_finite d ↔ pairwise_distinct (length bodies) pos_vel_array).
Proof.
  intros Hsv Hm. pose proof Hsv as [Hlen Hfin].
  exists (derivative pos_vel_array bodies).
  split; [by apply n_body_func_derivative|]. split.
  - intros Hd i j Hi Hj Hij Hco.
    destruct (derivative_singular pos_vel_array bodies i j Hi Hj Hij Hco)
      as [Hnan _].
    apply (Forall_lookup_1 _ _ _ _ Hd Hnan).
  - intros Hdist. apply Forall_lookup. intros k v Hv.
    assert (k < 4 * length bodies) as Hk.
    { apply lookup_lt_Some in Hv. by rewrite derivative_length in Hv. }
    destruct (index_cases _ _ Hk) as (i & Hi & Hcase).
    destruct (derivative_position pos_vel_array bodies i Hi) as [H0 H2].
    destruct (derivative_velocity pos_vel_array bodies i Hi) as [H1 H3].
    rewrite accel_newton in H1, H3 by done. cbn [fst snd] in H1, H3.
    destruct Hcase as [->|[->|[->| ->]]].
    + assert (v = comp pos_vel_array (4 * i + 1)) as -> by congruence.
      by apply comp_is_finite.
    + by assert (v = Fin (newton_accel 0 pos_vel_array bodies i)) as -> by congruence.
    + assert (v = comp pos_vel_array (4 * i + 3)) as -> by congruence.
      by apply comp_is_finite.
    + by assert (v = Fin (newton_accel 2 pos_vel_array bodies i)) as -> by congruence.
Qed.

Lemma n_body_func_finite_iff_witness :
  ∃ d, n_body_func 0 pair_state pair = Ok d ∧
       (Forall is_finite d ↔ pairwise_distinct (length pair) pair_state).
Proof.
  apply (n_body_func_finite_iff 0%R pair_state pair).
  - exact pair_state_vector.
  - exact pair_real_masses.
Defined.

Section moved.
Context {N : Type}.
Implicit Types (pv : list num) (bodies : list (Body.t num N)).

Lemma translate_length (a b : R) pv : length (translate a b pv) = length pv.
Proof. unfold translate. apply length_imap. Qed.

Lemma comp_translate (a b : R) pv k :
  k < length pv →
  comp (translate a b pv) k
  = if decide (k mod 4 = 0) then add (comp pv k) (Fin a)
    else if decide (k mod 4 = 2) then add (comp pv k) (Fin b)
    else comp pv k.
Proof.
  intros Hk. unfold comp, translate. rewrite list_lookup_imap.
  destruct (lookup_lt_is_Some_2 pv k Hk) as [v ->]. simpl.
  by repeat case_decide.
Qed.

Lemma sub_translate (a : R) (x y : num) :
  is_finite x → is_finite y →
  sub (add x (Fin a)) (add y (Fin a)) = sub x y.
Proof.
  destruct x as [x| | |], y as [y| | |]; try done. intros _ _.
  rewrite !add_fin, !sub_fin. f_equal. lra.
Qed.

Lemma pull_translate (a b : R) c pv bodies i j :
  c = 0 ∨ c = 2 →
  Forall is_finite pv →
  i * 4 + 2 < length pv → j * 4 + 2 < length pv →
  pull c (translate a b pv) bodies i j = pull c pv bodies i j.
Proof.
  intros Hc Hfin Hi Hj. unfold pull.
  assert (∀ k, k * 4 + 2 < length pv →
               comp (translate a b pv) (k * 4) = add (comp pv (k * 4)) (Fin a))
    as Hx.
  { intros k Hk. rewrite comp_translate by lia.
    rewrite decide_True; [done|]. by rewrite Nat.Div0.mod_mul. }
  assert (∀ k, k * 4 + 2 < length pv →
               comp (translate a b pv) (k * 4 + 2)
               = add (comp pv (k * 4 + 2)) (Fin b)) as Hy.
  { intros k Hk. rewrite comp_translate by lia.
    assert ((k * 4 + 2) mod 4 = 2) as ->
      by (rewrite Nat.add_comm, Nat.Div0.mod_add; done).
    done. }
  rewrite !Hx, !Hy by done.
  rewrite !sub_translate by (by apply comp_is_finite).
  destruct Hc as [-> | ->].
  - rewrite !Nat.add_0_r, !Hx by done.
    by rewrite !sub_translate by (by apply comp_is_finite).
  - rewrite !Hy by done.
    by rewrite !sub_translate by (by apply comp_is_finite).
Qed.

Lemma accel_translate (a b : R) pv bodies i :
  state_vector (length bodies) pv → i < length bodies →
  accel (translate a b pv) bodies i = accel pv bodies i.
Proof.
  intros [Hlen Hfin] Hi. unfold accel.
  apply foldl_ext_in. intros acc j Hj%elem_of_seq.
  unfold inner_step. destruct (decide (i ≠ j)); [|done].
  by rewrite !pull_translate by (done || (left + right; done) || lia).
Qed.
End moved.

(** X9.  The forces depend on the positions through their differences only:
    moving every body of a State Vector of reals by the same displacement
    [(a, b)] does not change what [n_body_func] returns. *)
Theorem n_body_func_translation {N} (t : time) (a b : R)
    (pos_vel_array : list num) (bodies : list (Body.t num N)) :
  state_vector (length bodies) pos_vel_array →
  n_body_func t (translate a b pos_vel_array) bodies
  = n_body_func t pos_vel_array bodies.
Proof.
  intros Hsv. pose proof Hsv as [Hlen Hfin].
  rewrite !n_body_func_derivative by (by rewrite ?translate_length).
  f_equal. apply derivative_ext; [done|].
  intros i Hi. split; [|split].
  - rewrite comp_translate by lia.
    assert ((4 * i + 1) mod 4 = 1) as ->
      by (rewrite Nat.add_comm, Nat.mul_comm, Nat.Div0.mod_add; done).
    done.
  - rewrite comp_translate by lia.
    assert ((4 * i + 3) mod 4 = 3) as ->
      by (rewrite Nat.add_comm, Nat.mul_comm, Nat.Div0.mod_add; done).
    done.
  - by apply accel_translate.
Qed.

Lemma n_body_func_translation_witness :
  n_body_func 0 (translate 3 (-2) pair_state) pair
  = n_body_func 0 pair_state pair.
Proof.
  apply (n_body_func_translation 0%R 3%R (-2)%R pair_state pair).
  exact pair_state_vector.
Defined.

(** ** The force field evaluator: State Vectors of any length *)

Lemma getslice_full (pv : list num) (c : nat) :
  getslice pv c (length pv) 4
  = map (λ k, comp pv (c + k * 4)) (seq 0 ((length pv - c + 3) / 4)).
Proof.
  unfold getslice, slice_range. rewrite Nat.min_id.
  change (4 - 1) with 3.
  apply omap_lookup_map. intros k Hk%elem_of_seq.
  pose proof (Nat.div_mod_eq (length pv - c + 3) 4) as Hdiv.
  pose proof (Nat.mod_upper_bound (length pv - c + 3) 4) as Hmod.
  lia.
Qed.

Lemma foldl_assign_at_length {A} (d : list A) (kvs : list (nat * A)) :
  length (foldl assign_at d kvs) = length d.
Proof.
  revert d. induction kvs as [|kv kvs IH]; intros d; simpl; [done|].
  rewrite IH. unfold assign_at. by rewrite length_insert.
Qed.

Lemma setslice_unfold (d src : list num) (c n : nat) :
  length d = 4 * n → c < 4 →
  setslice d c (length d) 4 src
  = (vals ← broadcast_to n src;
     Ok (foldl assign_at d (zip (map (λ k, c + k * 4) (seq 0 n)) vals))).
Proof.
  intros Hlen Hc. unfold setslice.
  rewrite Nat.min_id, Hlen, slice_range_4 by done.
  by rewrite length_map, length_seq.
Qed.

Lemma broadcast_to_returns_iff {A} (n : nat) (src : list A) :
  (∃ vals, broadcast_to n src = Ok vals) ↔ length src = n ∨ length src = 1.
Proof.
  unfold broadcast_to. destruct (decide (length src = n)) as [Hn|Hn].
  - split; [by left|]. intros _. by eexists.
  - destruct src as [|v [|w src]]; simpl in *.
    + split; [by intros [? ?]|]. intros [?|?]; [done|lia].
    + split; [by right|]. intros _. by eexists.
    + split; [by intros [? ?]|]. intros [?|?]; [done|lia].
Qed.

Section any_length.
Context {N : Type}.
Implicit Types (pv d : list num) (bodies : list (Body.t num N)).

Lemma inner_body_step_ge pv bodies i acc j b :
  4 * length bodies ≤ length pv + 1 → bodies !! j = Some b →
  inner_body pv i (comp pv (i * 4)) (comp pv (i * 4 + 2)) acc (j, b)
  = Ok (inner_step pv bodies i acc j).
Proof.
  intros Hlen Hb. pose proof (lookup_lt_Some _ _ _ Hb) as Hj.
  unfold inner_body, inner_step. destruct acc as [ax ay].
  destruct (decide (i ≠ j)); [|done].
  rewrite !getitem_comp by lia. simpl.
  rewrite (mass_of_lookup bodies j b Hb). unfold pull.
  by rewrite !Nat.add_0_r.
Qed.

Lemma outer_body_step_ge pv bodies d i b :
  4 * length bodies ≤ length pv + 1 → length d = 4 * length bodies →
  bodies !! i = Some b →
  outer_body pv bodies d (i, b) = Ok (outer_step pv bodies d i).
Proof.
  intros Hpv Hd Hb. pose proof (lookup_lt_Some _ _ _ Hb) as Hi.
  unfold outer_body. simpl.
  rewrite !getitem_comp by lia. simpl.
  assert (for_each (inner_body pv i (comp pv (i * 4)) (comp pv (i * 4 + 2)))
            (enumerate bodies) (Fin 0, Fin 0) = Ok (accel pv bodies i)) as ->.
  { unfold accel. apply (for_each_enumerate (λ _, True)); [done|].
    intros j b' acc _ Hb'. split; [|done]. by apply inner_body_step_ge. }
  simpl. unfold setitem. rewrite decide_True by lia. simpl.
  rewrite decide_True by (rewrite length_insert; lia). done.
Qed.

Lemma outer_loop_ge pv bodies d :
  4 * length bodies ≤ length pv + 1 → length d = 4 * length bodies →
  for_each (outer_body pv bodies) (enumerate bodies) d
  = Ok (foldl (outer_step pv bodies) d (seq 0 (length bodies))).
Proof.
  intros Hpv Hd.
  apply (for_each_enumerate (λ d, length d = 4 * length bodies)); [done|].
  intros i b d' Hd' Hb. split.
  - by apply outer_body_step_ge.
  - by rewrite outer_step_length.
Qed.

(** Reading an array raises nothing but [IndexError]. *)
Lemma inner_body_raises pv i x y acc j (b : Body.t num N) e :
  inner_body pv i x y acc (j, b) = Raise e → e = IndexError.
Proof.
  unfold inner_body, getitem. destruct acc as [ax ay].
  destruct (decide (i ≠ j)); [|done].
  destruct (pv !! (j * 4)); simpl; [|by intros [= <-]].
  destruct (pv !! (j * 4 + 2)); simpl; [done|by intros [= <-]].
Qed.

Lemma inner_body_out_of_range pv i x y acc j (b : Body.t num N) :
  i ≠ j → length pv ≤ j * 4 + 2 →
  inner_body pv i x y acc (j, b) = Raise IndexError.
Proof.
  intros Hij Hj. unfold inner_body, getitem. destruct acc as [ax ay].
  rewrite decide_True by done.
  destruct (pv !! (j * 4)); simpl; [|done].
  by rewrite lookup_ge_None_2.
Qed.

Lemma inner_loop_out_of_range pv i x y (l : list (nat * Body.t num N)) :
  (∃ j b, (j, b) ∈ l ∧ i ≠ j ∧ length pv ≤ j * 4 + 2) →
  ∀ acc, for_each (inner_body pv i x y) l acc = Raise IndexError.
Proof.
  induction l as [|[j0 b0] l IH]; intros (j & b & Hin & Hij & Hj) acc.
  - by apply elem_of_nil in Hin.
  - simpl.
    destruct (inner_body pv i x y acc (j0, b0)) as [acc'|e] eqn:Hhead; simpl.
    + apply IH. exists j, b. split; [|done].
      apply elem_of_cons in Hin as [[= -> ->]|Hin]; [|done].
      by rewrite inner_body_out_of_range in Hhead.
    + by rewrite (inner_body_raises _ _ _ _ _ _ _ _ Hhead).
Qed.

Lemma outer_loop_out_of_range pv bodies d :
  1 ≤ length bodies → length pv + 1 < 4 * length bodies →
  for_each (outer_body pv bodies) (enumerate bodies) d = Raise IndexError.
Proof.
  intros Hn Hpv. destruct bodies as [|b0 rest]; [simpl in Hn; lia|].
  set (bodies := b0 :: rest) in *.
  assert (outer_body pv bodies d (0, b0) = Raise IndexError) as Hfirst.
  { unfold outer_body, getitem. cbn [fst].
    change (0 * 4 + 2) with 2. change (0 * 4) with 0.
    destruct (pv !! 0) as [x|]; [|reflexivity].
    cbn [of_option mbind result_bind].
    destruct (pv !! 2) as [y|] eqn:Hy; [|reflexivity].
    cbn [of_option mbind result_bind].
    apply lookup_lt_Some in Hy.
    rewrite inner_loop_out_of_range; [done|].
    assert (1 ≤ length rest) as Hrest by (simpl in Hpv; lia).
    destruct (lookup_lt_is_Some_2 bodies (length rest)) as [b Hb];
      [simpl; lia|].
    exists (length rest), b. split; [|split; [lia|simpl in Hpv; lia]].
    apply list_elem_of_lookup. exists (length rest).
    unfold enumerate. rewrite lookup_zip_with.
    rewrite lookup_seq_lt by (simpl; lia). simpl. by rewrite Hb. }
  change (enumerate bodies) with ((0, b0) :: zip (seq 1 (length rest)) rest).
  cbn [for_each]. by rewrite Hfirst.
Qed.

Lemma n_body_func_unfold (t : time) pv bodies :
  n_body_func t pv bodies
  = (v1 ← broadcast_to (length bodies)
            (map (λ k, comp pv (1 + k * 4)) (seq 0 ((length pv - 1 + 3) / 4)));
     v3 ← broadcast_to (length bodies)
            (map (λ k, comp pv (3 + k * 4)) (seq 0 ((length pv - 3 + 3) / 4)));
     for_each (outer_body pv bodies) (enumerate bodies)
       (foldl assign_at
          (foldl assign_at (np_zeros (4 * length bodies))
             (zip (map (λ k, 0 + k * 4) (seq 0 (length bodies))) v1))
          (zip (map (λ k, 2 + k * 4) (seq 0 (length bodies))) v3))).
Proof.
  unfold n_body_func.
  assert (length (np_zeros (4 * length bodies)) = 4 * length bodies) as H0
    by (unfold np_zeros; by rewrite length_replicate).
  rewrite !getslice_full.
  rewrite (setslice_unfold _ _ 0 (length bodies)) by (done || lia).
  destruct (broadcast_to _ _) as [v1|e]; cbn [mbind result_bind]; [|done].
  rewrite (setslice_unfold _ _ 2 (length bodies))
    by (rewrite ?foldl_assign_at_length; done || lia).
  by destruct (broadcast_to _ _).
Qed.
End any_length.

(** X10.  [n_body_func] does not check the length of the State Vector
    against the number of bodies.  It returns exactly for these lengths [L]
    and numbers of bodies [n]: [L = 4n] or [L = 4n + 1] with at least one
    body; [L = 7] with two bodies (the last velocity is missing and the
    slice assignment repeats the one it finds); and [L <= 5] with no body.
    Every other length raises. *)
Theorem n_body_func_returns_iff {N} (t : time) (pos_vel_array : list num)
    (bodies : list (Body.t num N)) :
  (∃ d, n_body_func t pos_vel_array bodies = Ok d) ↔
  (length bodies = 0 ∧ length pos_vel_array ≤ 5) ∨
  (1 ≤ length bodies ∧
   (length pos_vel_array = 4 * length bodies ∨
    length pos_vel_array = 4 * length bodies + 1)) ∨
  (length bodies = 2 ∧ length pos_vel_array = 7).
Proof.
  set (L := length pos_vel_array). set (n := length bodies).
  assert ((∃ d, n_body_func t pos_vel_array bodies = Ok d) ↔
          (((L - 1 + 3) / 4 = n ∨ (L - 1 + 3) / 4 = 1) ∧
           ((L - 3 + 3) / 4 = n ∨ (L - 3 + 3) / 4 = 1) ∧
           (n = 0 ∨ 4 * n ≤ L + 1))) as ->.
  { rewrite n_body_func_unfold. fold L n.
    pose proof (broadcast_to_returns_iff n
                  (map (λ k, comp pos_vel_array (1 + k * 4))
                     (seq 0 ((L - 1 + 3) / 4)))) as H1.
    pose proof (broadcast_to_returns_iff n
                  (map (λ k, comp pos_vel_array (3 + k * 4))
                     (seq 0 ((L - 3 + 3) / 4)))) as H3.
    rewrite length_map, length_seq in H1, H3.
    destruct (broadcast_to n (map (λ k, comp pos_vel_array (1 + k * 4)) _))
      as [v1|e1] eqn:Hv1; cbn [mbind result_bind].
    2:{ split; [by intros [? ?]|]. intros [Hc _].
        apply H1 in Hc as [? ?]. done. }
    destruct (broadcast_to n (map (λ k, comp pos_vel_array (3 + k * 4)) _))
      as [v3|e3] eqn:Hv3; cbn [mbind result_bind].
    2:{ split; [by intros [? ?]|]. intros (_ & Hc & _).
        apply H3 in Hc as [? ?]. done. }
    assert ((L - 1 + 3) / 4 = n ∨ (L - 1 + 3) / 4 = 1) as Hc1
      by (apply H1; by eexists).
    assert ((L - 3 + 3) / 4 = n ∨ (L - 3 + 3) / 4 = 1) as Hc3
      by (apply H3; by eexists).
    set (d2 := foldl assign_at _ _).
    assert (length d2 = 4 * n) as Hd2.
    { unfold d2. rewrite !foldl_assign_at_length. unfold np_zeros.
      by rewrite length_replicate. }
    destruct (decide (n = 0 ∨ 4 * n ≤ L + 1)) as [Hok|Hbad].
    - split; [done|]. intros _.
      destruct Hok as [Hn|Hn].
      + unfold n in Hn. apply length_zero_iff_nil in Hn. rewrite Hn.
        by eexists.
      + rewrite outer_loop_ge by done. by eexists.
    - rewrite outer_loop_out_of_range by (fold n L; lia).
      split; [by intros [? ?]|]. by intros (_ & _ & ?). }
  pose proof (Nat.div_mod_eq (L - 1 + 3) 4) as Hd1.
  pose proof (Nat.mod_upper_bound (L - 1 + 3) 4) as Hm1.
  pose proof (Nat.div_mod_eq (L - 3 + 3) 4) as Hd3.
  pose proof (Nat.mod_upper_bound (L - 3 + 3) 4) as Hm3.
  lia.
Qed.

Section trailing.
Context {N : Type}.
Implicit Types (pv : list num) (bodies : list (Body.t num N)).

Lemma n_body_func_derivative_longer (t : time) pv bodies :
  length pv = 4 * length bodies + 1 →
  n_body_func t pv bodies = Ok (derivative pv bodies).
Proof.
  intros Hlen. rewrite n_body_func_unfold, Hlen.
  assert ((4 * length bodies + 1 - 1 + 3) / 4 = length bodies) as ->.
  { symmetry. apply Nat.div_unique with (r := 3); lia. }
  assert ((4 * length bodies + 1 - 3 + 3) / 4 = length bodies) as ->.
  { destruct (length bodies) as [|n]; [done|].
    symmetry. apply Nat.div_unique with (r := 1); lia. }
  rewrite !broadcast_to_same by (by rewrite length_map, length_seq).
  cbn [mbind result_bind]. rewrite !foldl_assign_at_zip.
  rewrite outer_loop_ge; [done|lia|].
  rewrite !foldl_insert_length. unfold np_zeros. by rewrite length_replicate.
Qed.

Lemma comp_app_l pv (z : num) k : k < length pv → comp (pv ++ [z]) k = comp pv k.
Proof. intros Hk. unfold comp. by rewrite lookup_app_l. Qed.
End trailing.

(** X11.  A State Vector with one component too many is accepted, and the
    extra component is ignored: the result is the one for the State Vector
    without it. *)
Theorem n_body_func_ignores_trailing {N} (t : time) (pos_vel_array : list num)
    (extra : num) (bodies : list (Body.t num N)) :
  length pos_vel_array = 4 * length bodies →
  n_body_func t (pos_vel_array ++ [extra]) bodies
  = n_body_func t pos_vel_array bodies.
Proof.
  intros Hlen.
  rewrite n_body_func_derivative_longer by (rewrite length_app; simpl; lia).
  rewrite n_body_func_derivative by done.
  f_equal. apply derivative_ext; [done|].
  intros i Hi. rewrite !comp_app_l by lia. split; [done|]. split; [done|].
  apply accel_ext; [done| |done|done].
  intros j Hj. by rewrite !comp_app_l by lia.
Qed.

Lemma n_body_func_ignores_trailing_witness :
  n_body_func 0 (pair_state ++ [NaN]) pair = n_body_func 0 pair_state pair.
Proof.
  apply (n_body_func_ignores_trailing 0%R pair_state NaN pair).
  reflexivity.
Defined.

(** ** The driver: samples that cannot be taken, and a solver that raises *)

Section driver_errors.
Context {N : Type} (ode : ode_api N).
Implicit Types (bodies : list (Body.t num N)) (f : rhs N).

Lemma calc_orbits_unfold bodies f (t0 t1 : time) dt ts :
  np_linspace t0 t1 dt = Ok ts → (1 ≤ dt)%Z →
  calc_orbits ode bodies f t0 t1 dt
  = (st ← for_each (calc_orbits_step ode ts) (seq 1 (length ts - 1))
            ({| nrows := length ts; ncols := length bodies * 4;
                rows := set_initial bodies ::
                        replicate (length ts - 1) (np_zeros (length bodies * 4)) |},
             ode_setup ode f "dop853" rtol atol (set_initial bodies) t0 bodies);
     Ok st.1).
Proof.
  intros Hts Hdt. unfold calc_orbits. rewrite Hts. cbn [mbind result_bind].
  apply np_linspace_length in Hts as [Hlen _].
  destruct (length ts) as [|n] eqn:Hn; [lia|].
  unfold setrow at 1. cbn [nrows ncols rows np_zeros2].
  rewrite decide_True by lia.
  rewrite broadcast_to_same by apply set_initial_length.
  cbn [mbind result_bind replicate].
  replace (S n - 1) with n by lia. done.
Qed.

(** If the solver gets through the times [before] and the step for the next
    time fails with [e], so does [calc_orbits]. *)
Lemma calc_orbits_step_fails bodies f (t0 t1 : time) dt ts before tk after
    outs rs s' e :
  np_linspace t0 t1 dt = Ok ts →
  tail ts = before ++ tk :: after →
  ode_run ode
    (ode_setup ode f "dop853" rtol atol (set_initial bodies) t0 bodies)
    before outs s' →
  stored (length bodies * 4) outs rs →
  (∀ y, nrows y = length ts → ncols y = length bodies * 4 →
        calc_orbits_step ode ts (y, s') (1 + length before) = Raise e) →
  calc_orbits ode bodies f t0 t1 dt = Raise e.
Proof.
  intros Hts Htail Hrun Hst Hstep.
  assert (length (tail ts) = length before + S (length after)) as Hlen
    by (rewrite Htail, length_app; done).
  assert (length ts = 1 + length before + S (length after)) as Hlen'
    by (destruct ts; simpl in *; [lia|by f_equal]).
  pose proof (np_linspace_length _ _ _ _ Hts) as [Hdt _].
  rewrite (calc_orbits_unfold bodies f t0 t1 dt ts Hts) by lia.
  replace (length ts - 1) with (length before + S (length after)) by lia.
  rewrite seq_app, for_each_app.
  rewrite (calc_loop_ok ode ts (length before) 1 _ _ outs rs s');
    [|simpl; rewrite length_replicate; lia|simpl; lia| |lia|done].
  - cbn [mbind result_bind seq for_each].
    rewrite Hstep; [done|done|done].
  - replace (drop 1 ts) with (tail ts) by (by destruct ts).
    rewrite Htail, take_app_length. done.
Qed.
End driver_errors.

(** X12.  A sample count below one is rejected before the solver is set up:
    a negative [dt] is [np.linspace]'s [ValueError], and [dt = 0] is an
    [IndexError], there being no row 0 for the initial condition. *)
Theorem calc_orbits_rejects_no_sample {N} (ode : ode_api N)
    (bodies : list (Body.t num N)) (f : rhs N) (t0 t1 : time) (dt : Z) :
  (dt ≤ 0)%Z →
  calc_orbits ode bodies f t0 t1 dt
  = Raise (if decide (dt = 0)%Z then IndexError else ValueError).
Proof.
  intros Hdt. unfold calc_orbits, np_linspace.
  destruct (decide (dt = 0)%Z) as [->|Hne]; [done|].
  by rewrite decide_True by lia.
Qed.

Lemma calc_orbits_rejects_no_sample_witness :
  calc_orbits (Euler.api string) pair n_body_func 0 1 (-3) = Raise ValueError.
Proof.
  apply (calc_orbits_rejects_no_sample (Euler.api string) pair n_body_func
           0%R 1%R (-3)).
  lia.
Defined.

(** X13.  With a single sample the solver is never called and the end time
    plays no part: the trajectory is the initial condition alone. *)
Theorem calc_orbits_single_sample {N} (ode : ode_api N)
    (bodies : list (Body.t num N)) (f : rhs N) (t0 t1 : time) :
  calc_orbits ode bodies f t0 t1 1
  = Ok {| nrows := 1; ncols := length bodies * 4;
          rows := [set_initial bodies] |}.
Proof.
  apply (calc_orbits_spec ode bodies f t0 t1 1 _ _ eq_refl); [lia|].
  eexists [], [], _. split; [constructor|]. split; [constructor|done].
Qed.

(** X14.  An exception raised by the solver is not caught: when the solver
    has returned a state that fits a row for each of the first output times
    and raises [e] at the next one, [calc_orbits] raises [e], and the rows
    computed so far are lost. *)
Theorem calc_orbits_solver_raises {N} (ode : ode_api N)
    (bodies : list (Body.t num N)) (f : rhs N) (t0 t1 : time) (dt : Z)
    (ts before : list time) (tk : time) (after : list time)
    (outs rs : list (list num)) (s' : ode_state ode) (e : exn) :
  np_linspace t0 t1 dt = Ok ts →
  tail ts = before ++ tk :: after →
  ode_run ode
    (ode_setup ode f "dop853" rtol atol (set_initial bodies) t0 bodies)
    before outs s' →
  stored (length bodies * 4) outs rs →
  ode_integrate ode s' tk = Raise e →
  calc_orbits ode bodies f t0 t1 dt = Raise e.
Proof.
  intros Hts Htail Hrun Hst Hraise.
  apply (calc_orbits_step_fails ode bodies f t0 t1 dt ts before tk after
           outs rs s' e Hts Htail Hrun Hst).
  intros y Hrows Hcols. unfold calc_orbits_step, getitem.
  assert (ts !! (1 + length before) = Some tk) as ->.
  { destruct ts as [|t ts']; [by destruct before|]. simpl in *.
    rewrite Htail. by rewrite list_lookup_middle. }
  simpl. by rewrite Hraise.
Qed.

(** X15.  A state returned by the solver that has neither [4n] components
    nor exactly one cannot be stored in a row: [calc_orbits] raises
    [ValueError]. *)
Theorem calc_orbits_state_size {N} (ode : ode_api N)
    (bodies : list (Body.t num N)) (f : rhs N) (t0 t1 : time) (dt : Z)
    (ts before : list time) (tk : time) (after : list time)
    (outs rs : list (list num)) (s' s'' : ode_state ode) (out : list num) :
  np_linspace t0 t1 dt = Ok ts →
  tail ts = before ++ tk :: after →
  ode_run ode
    (ode_setup ode f "dop853" rtol atol (set_initial bodies) t0 bodies)
    before outs s' →
  stored (length bodies * 4) outs rs →
  ode_integrate ode s' tk = Ok (out, s'') →
  length out ≠ length bodies * 4 → length out ≠ 1 →
  calc_orbits ode bodies f t0 t1 dt = Raise ValueError.
Proof.
  intros Hts Htail Hrun Hst Hout Hlen Hone.
  apply (calc_orbits_step_fails ode bodies f t0 t1 dt ts before tk after
           outs rs s' ValueError Hts Htail Hrun Hst).
  intros y Hrows Hcols. unfold calc_orbits_step, getitem.
  assert (length ts = S (length before + S (length after))) as Hts_len.
  { destruct ts as [|t ts']; simpl in *; [by destruct before|].
    by rewrite Htail, length_app. }
  assert (ts !! (1 + length before) = Some tk) as ->.
  { destruct ts as [|t ts']; [by destruct before|]. simpl in *.
    rewrite Htail. by rewrite list_lookup_middle. }
  simpl. rewrite Hout. simpl. unfold setrow.
  rewrite decide_True by lia. unfold broadcast_to.
  rewrite Hcols, decide_False by done.
  by destruct out as [|v [|w out]].
Qed.

Lemma calc_orbits_solver_raises_witness :
  calc_orbits raising_ode lone n_body_func 0 1 3 = Raise (Exception "solver").
Proof.
  eapply (calc_orbits_solver_raises raising_ode lone n_body_func 0%R 1%R 3
            (output_times 0 1 3) [_] _ [] [set_initial lone] [set_initial lone]
            (set_initial lone, true)).
  - apply np_linspace_output_times. lia.
  - reflexivity.
  - eapply ode_run_cons; [reflexivity|constructor].
  - apply stored_same. by repeat constructor.
  - reflexivity.
Defined.

Lemma calc_orbits_state_size_witness :
  calc_orbits short_ode lone n_body_func 0 1 2 = Raise ValueError.
Proof.
  eapply (calc_orbits_state_size short_ode lone n_body_func 0%R 1%R 2
            (output_times 0 1 2) [] _ [] [] [] () () [Fin 0; Fin 0]).
  - apply np_linspace_output_times. lia.
  - reflexivity.
  - constructor.
  - constructor.
  - reflexivity.
  - simpl. lia.
  - simpl. lia.
Defined.

(** ** Plotting *)

Lemma plot_orbits_body_in_range (orbit_paths : ndarray2)
    (lines : list (list num * list num)) (i : nat) :
  i * 4 + 2 < ncols orbit_paths →
  plot_orbits_body orbit_paths lines i
  = Ok (lines ++ [(map (λ row, comp row (i * 4)) (rows orbit_paths),
                   map (λ row, comp row (i * 4 + 2)) (rows orbit_paths))]).
Proof.
  intros Hi. unfold plot_orbits_body, getcol.
  by rewrite !decide_True by lia.
Qed.

Lemma plot_orbits_loop (orbit_paths : ndarray2) (l : list nat) :
  (∀ i, i ∈ l → i * 4 + 2 < ncols orbit_paths) →
  ∀ lines,
    for_each (plot_orbits_body orbit_paths) l lines
    = Ok (lines ++
          map (λ i, (map (λ row, comp row (i * 4)) (rows orbit_paths),
                     map (λ row, comp row (i * 4 + 2)) (rows orbit_paths))) l).
Proof.
  induction l as [|i l IH]; intros Hin lines; simpl.
  - by rewrite app_nil_r.
  - rewrite plot_orbits_body_in_range by (apply Hin; by left).
    cbn [mbind result_bind].
    rewrite IH by (intros i' Hi'; apply Hin; by right).
    by rewrite <- app_assoc.
Qed.

(** X16.  [plot_orbits] never raises, whatever the shape of the array: it
    draws one line per complete group of four columns, [ncols / 4] rounded
    down, the line of group [i] joining the points whose abscissas are column
    [4i] and whose ordinates are column [4i+2]; the velocity columns and any
    columns after the last complete group are not drawn. *)
Theorem plot_orbits_lines (orbit_paths : ndarray2) :
  plot_orbits orbit_paths
  = Ok (map (λ i, (map (λ row, comp row (i * 4)) (rows orbit_paths),
                   map (λ row, comp row (i * 4 + 2)) (rows orbit_paths)))
            (seq 0 (ncols orbit_paths / 4))).
Proof.
  unfold plot_orbits. rewrite plot_orbits_loop; [done|].
  intros i Hi%elem_of_seq.
  pose proof (Nat.div_mod_eq (ncols orbit_paths) 4) as Hdiv.
  lia.
Qed.

(** X17.  Plotting what [calc_orbits] returns draws one line per body, in
    the order of the body list; the line of body [i] has one point per
    sample and starts at the point whose coordinates are the body's [x] and
    [y] attributes. *)
Theorem plot_orbits_of_calc_orbits {N} (ode : ode_api N)
    (bodies : list (Body.t num N)) (f : rhs N) (t0 t1 : time) (dt : Z)
    (y : ndarray2) :
  calc_orbits ode bodies f t0 t1 dt = Ok y →
  ∃ lines,
    plot_orbits y = Ok lines ∧
    length lines = length bodies ∧
    ∀ i b, bodies !! i = Some b →
      ∃ xs ys, lines !! i = Some (xs, ys) ∧
               length xs = Z.to_nat dt ∧ length ys = Z.to_nat dt ∧
               xs !! 0 = Some (Body.x b) ∧ ys !! 0 = Some (Body.y b).
Proof.
  intros Hy.
  destruct (calc_orbits_rows_length ode bodies f t0 t1 dt y Hy) as [_ Hrows].
  destruct (calc_orbits_returns_dt ode bodies f t0 t1 dt y Hy) as (Hdt & ts & Hts).
  apply (calc_orbits_spec ode bodies f t0 t1 dt ts y Hts Hdt) in Hy
    as (outs & rs & s' & _ & _ & ->).
  eexists. split; [apply plot_orbits_lines|].
  cbn [ncols rows] in *. rewrite Nat.div_mul by done.
  split; [by rewrite length_map, length_seq|].
  intros i b Hb. pose proof (lookup_lt_Some _ _ _ Hb) as Hi.
  eexists _, _. split.
  { rewrite list_lookup_fmap, lookup_seq_lt by done. done. }
  rewrite !length_map. split; [done|]. split; [done|].
  destruct (set_initial_lookup bodies i b Hb) as (Hx & _ & Hy & _).
  cbn [map]. unfold comp. rewrite Nat.add_0_l, !(Nat.mul_comm i 4), Hx, Hy. done.
Qed.

Lemma plot_orbits_of_calc_orbits_witness :
  ∃ lines,
    plot_orbits lone_orbit = Ok lines ∧
    length lines = length lone ∧
    ∀ i b, lone !! i = Some b →
      ∃ xs ys, lines !! i = Some (xs, ys) ∧
               length xs = Z.to_nat 1 ∧ length ys = Z.to_nat 1 ∧
               xs !! 0 = Some (Body.x b) ∧ ys !! 0 = Some (Body.y b).
Proof.
  apply (plot_orbits_of_calc_orbits (Euler.api string) lone n_body_func
           0%R 1%R 1 lone_orbit).
  exact lone_orbit_returned.
Defined.

(** ** The header of the exported table, for any array *)

Section header.
Implicit Types (bodies : list (Body.t num string)) (spec : gmap nat string).

Lemma column_names_app bodies1 bodies2 :
  column_names (bodies1 ++ bodies2)
  = column_names bodies1 ++ column_names bodies2.
Proof. unfold column_names. by rewrite map_app, concat_app. Qed.

Lemma column_names_one (b : Body.t num string) : column_names [b] = body_labels b.
Proof. reflexivity. Qed.

Lemma rename_take spec (m : nat) (columns : list label) :
  rename spec (take m columns) = take m (rename spec columns).
Proof. unfold rename. symmetry. apply firstn_map. Qed.

Lemma rename_spec_ints (k m : nat) (b : Body.t num string) :
  rename (rename_spec k (Body.name b)) (map LInt (seq (4 * k) m))
  = take m (body_labels b) ++ map LInt (seq (4 * k + 4) (m - 4)).
Proof.
  destruct (decide (m ≤ 4)) as [Hm|Hm].
  - replace (m - 4) with 0 by lia. cbn [seq map]. rewrite app_nil_r.
    replace (seq (4 * k) m) with (take m (seq (4 * k) 4))
      by (rewrite take_seq; f_equal; lia).
    rewrite <- firstn_map, rename_take, rename_spec_block. done.
  - replace m with (4 + (m - 4)) at 1 by lia.
    rewrite seq_app, map_app, rename_app, rename_spec_block.
    rewrite rename_ints_miss
      by (intros j Hj%elem_of_seq; apply rename_spec_miss; lia).
    by rewrite take_ge by (simpl; lia).
Qed.

Lemma store_orbits_loop_any bodies (c m : nat) :
  ∀ k, k + m ≤ length bodies →
    for_each (store_orbits_body bodies) (seq k m)
      (take c (column_names (take k bodies)) ++
       map LInt (seq (4 * k) (c - 4 * k)))
    = Ok (take c (column_names (take (k + m) bodies)) ++
          map LInt (seq (4 * (k + m)) (c - 4 * (k + m)))).
Proof.
  induction m as [|m IH]; intros k Hk; cbn [seq for_each].
  - by rewrite Nat.add_0_r.
  - destruct (lookup_lt_is_Some_2 bodies k) as [b Hb]; [lia|].
    rewrite (store_orbits_body_lookup bodies _ k b Hb).
    cbn [mbind result_bind].
    rewrite rename_app, rename_take, rename_column_names, rename_spec_ints.
    replace (k + S m) with (S k + m) by lia.
    rewrite <- IH by lia. f_equal.
    rewrite (take_S_r _ _ b Hb), column_names_app, column_names_one.
    rewrite take_app, column_names_length, length_take_le by lia.
    rewrite <- app_assoc.
    replace (4 * S k) with (4 * k + 4) by lia.
    by replace (c - (4 * k + 4)) with (c - 4 * k - 4) by lia.
Qed.
End header.

(** X18.  [store_orbits] names the columns of any array without raising:
    the first [4n] columns get the names [name_x], [name_vx], [name_y],
    [name_vy] of the [n] bodies in order, as far as the array has columns; the
    columns the array has beyond [4n] keep their numbers as labels, and names
    for columns the array does not have are dropped. *)
Theorem store_orbits_columns_any (bodies : list (Body.t num string))
    (orbit_paths : ndarray2) :
  store_orbits_columns bodies orbit_paths
  = Ok (take (ncols orbit_paths) (column_names bodies) ++
        map LInt (seq (4 * length bodies)
                      (ncols orbit_paths - 4 * length bodies))).
Proof.
  unfold store_orbits_columns.
  pose proof (store_orbits_loop_any bodies (ncols orbit_paths)
                (length bodies) 0 ltac:(lia)) as Hloop.
  rewrite take_0, Nat.mul_0_r, Nat.sub_0_r, Nat.add_0_l, firstn_all in Hloop.
  change (column_names []) with (@nil label) in Hloop.
  rewrite take_nil in Hloop. exact Hloop.
Qed.

(** ** Column names that can be told apart *)

Section names.
Implicit Types (bodies : list (Body.t num string)).

Lemma list_ascii_of_append (s1 s2 : string) :
  String.list_ascii_of_string (s1 +:+ s2)
  = String.list_ascii_of_string s1 ++ String.list_ascii_of_string s2.
Proof. induction s1 as [|a s1 IH]; simpl; [done|]. by rewrite IH. Qed.

Lemma list_ascii_inj (s1 s2 : string) :
  String.list_ascii_of_string s1 = String.list_ascii_of_string s2 → s1 = s2.
Proof.
  intros Heq.
  rewrite <- (String.string_of_list_ascii_of_string s1),
          <- (String.string_of_list_ascii_of_string s2).
  by rewrite Heq.
Qed.

(** A name and a suffix can be read back from the column name they make. *)
Lemma label_inj (n1 n2 suf1 suf2 : string) :
  suf1 ∈ suffixes → suf2 ∈ suffixes →
  n1 +:+ suf1 = n2 +:+ suf2 → n1 = n2 ∧ suf1 = suf2.
Proof.
  intros H1 H2 Heq.
  apply (f_equal String.list_ascii_of_string) in Heq.
  rewrite !list_ascii_of_append in Heq.
  apply (f_equal (@rev _)) in Heq. rewrite !rev_app_distr in Heq.
  assert (∀ l1 l2 : list Ascii.ascii, rev l1 = rev l2 → l1 = l2) as Hrev.
  { intros l1 l2 Hr. apply (f_equal (@rev _)) in Hr.
    by rewrite !rev_involutive in Hr. }
  unfold suffixes in H1, H2.
  repeat (apply elem_of_cons in H1 as [->|H1]);
    try (by apply elem_of_nil in H1);
    repeat (apply elem_of_cons in H2 as [->|H2]);
    try (by apply elem_of_nil in H2);
    simpl in Heq; try discriminate Heq;
    (split; [|done]); apply list_ascii_inj, Hrev; congruence.
Qed.

Lemma body_labels_suffixes (b : Body.t num string) :
  body_labels b = (λ suf, LStr (Body.name b +:+ suf)) <$> suffixes.
Proof. reflexivity. Qed.

Lemma elem_of_column_names (x : label) bodies :
  x ∈ column_names bodies ↔
  ∃ b suf, b ∈ bodies ∧ suf ∈ suffixes ∧ x = LStr (Body.name b +:+ suf).
Proof.
  induction bodies as [|b bodies IH].
  - split; [by intros ?%elem_of_nil|]. by intros (b & _ & ?%elem_of_nil & _).
  - change (column_names (b :: bodies))
      with (body_labels b ++ column_names bodies).
    rewrite elem_of_app, IH, body_labels_suffixes, list_elem_of_fmap. split.
    + intros [(suf & -> & Hsuf)|(b' & suf & Hb' & Hsuf & ->)].
      * exists b, suf. split; [by left|done].
      * exists b', suf. split; [by right|done].
    + intros (b' & suf & [->|Hb']%elem_of_cons & Hsuf & ->).
      * left. by exists suf.
      * right. by exists b', suf.
Qed.
End names.

Lemma column_names_NoDup (bodies : list (Body.t num string)) :
  NoDup (column_names bodies) ↔ NoDup (Body.name <$> bodies).
Proof.
  induction bodies as [|b bodies IH].
  - split; intros _; constructor.
  - change (column_names (b :: bodies))
      with (body_labels b ++ column_names bodies).
    rewrite fmap_cons, NoDup_cons, NoDup_app, IH.
    assert (NoDup (body_labels b)) as Hown.
    { rewrite body_labels_suffixes. apply NoDup_fmap_2_strong.
      - intros suf1 suf2 H1 H2 [= Heq].
        by destruct (label_inj _ _ _ _ H1 H2 Heq).
      - by apply (bool_decide_unpack _). }
    split.
    + intros (_ & Hfresh & Hrest). split; [|done].
      intros (b' & Hname & Hb')%list_elem_of_fmap.
      apply (Hfresh (LStr (Body.name b +:+ "_x"))).
      * rewrite body_labels_suffixes. apply list_elem_of_fmap.
        exists "_x"%string. split; [done|]. unfold suffixes. by left.
      * apply elem_of_column_names. exists b', "_x"%string.
        split; [done|]. split; [unfold suffixes; by left|]. by rewrite Hname.
    + intros [Hfresh Hrest]. split; [done|]. split; [|done].
      intros x Hx Hx'. apply Hfresh.
      rewrite body_labels_suffixes in Hx.
      apply list_elem_of_fmap in Hx as (suf & -> & Hsuf).
      apply elem_of_column_names in Hx' as (b' & suf' & Hb' & Hsuf' & [= Heq]).
      destruct (label_inj _ _ _ _ Hsuf Hsuf' Heq) as [-> _].
      apply list_elem_of_fmap. by exists b'.
Qed.

Lemma store_orbits_columns_wide (bodies : list (Body.t num string))
    (orbit_paths : ndarray2) :
  4 * length bodies ≤ ncols orbit_paths →
  store_orbits_columns bodies orbit_paths
  = Ok (column_names bodies ++
        map LInt (seq (4 * length bodies)
                      (ncols orbit_paths - 4 * length bodies))).
Proof.
  intros Hwide. unfold store_orbits_columns.
  pose proof (store_orbits_loop_any bodies (ncols orbit_paths)
                (length bodies) 0 ltac:(lia)) as Hloop.
  rewrite take_0, Nat.mul_0_r, Nat.sub_0_r, Nat.add_0_l, firstn_all in Hloop.
  change (column_names []) with (@nil label) in Hloop.
  rewrite take_nil in Hloop. etrans; [exact Hloop|]. do 2 f_equal.
  apply take_ge. rewrite column_names_length. lia.
Qed.

(** X19.  For an array with at least the [4n] columns of the [n] bodies
    (every array [calc_orbits] returns has exactly [4n]), the header
    [store_orbits] gives the exported table has pairwise different labels
    exactly when the names of the bodies are pairwise different: with two
    bodies of the same name, two columns of the table carry the same name. *)
Theorem store_orbits_labels_distinct_iff (bodies : list (Body.t num string))
    (orbit_paths : ndarray2) :
  4 * length bodies ≤ ncols orbit_paths →
  ∃ columns, store_orbits_columns bodies orbit_paths = Ok columns ∧
             (NoDup columns ↔ NoDup (Body.name <$> bodies)).
Proof.
  intros Hwide. eexists. split; [by apply store_orbits_columns_wide|].
  rewrite NoDup_app, column_names_NoDup. split; [by intros [? _]|].
  intros Hnames. split; [done|]. split.
  - intros x (b & suf & _ & _ & ->)%elem_of_column_names
             (k & [=] & _)%list_elem_of_fmap.
  - apply NoDup_fmap_2; [by intros ?? [=]|apply NoDup_seq].
Qed.

Lemma store_orbits_labels_distinct_iff_witness :
  ∃ columns, store_orbits_columns lone lone_orbit = Ok columns ∧
             (NoDup columns ↔ NoDup (Body.name <$> lone)).
Proof.
  apply (store_orbits_labels_distinct_iff lone lone_orbit).
  simpl. lia.
Defined.

(** ** Angular momentum *)

Section angular.
Context {N : Type}.
Implicit Types (pv d : list num) (bodies : list (Body.t num N)).

Lemma Rsum_minus (f g : nat → R) (l : list nat) :
  Rsum (map (λ k, f k - g k)%R l) = (Rsum (map f l) - Rsum (map g l))%R.
Proof. induction l as [|k l IH]; simpl; [lra|rewrite IH; lra]. Qed.

(** The pull of [j] on [i] is directed along the line that joins them: the
    moments of the mass-weighted pulls of [j] on [i] and of [i] on [j] are
    opposite. *)
Lemma newton_moment_antisymmetric pv bodies i j :
  (to_R (mass_of bodies i) *
   (to_R (comp pv (4 * i)) * newton_term 2 pv bodies i j -
    to_R (comp pv (4 * i + 2)) * newton_term 0 pv bodies i j))%R
  = (- (to_R (mass_of bodies j) *
        (to_R (comp pv (4 * j)) * newton_term 2 pv bodies j i -
         to_R (comp pv (4 * j + 2)) * newton_term 0 pv bodies j i)))%R.
Proof.
  unfold newton_term. rewrite (distance_sym pv j i), !Nat.add_0_r.
  unfold Rdiv. ring.
Qed.

Lemma newton_angular_momentum pv bodies :
  Rsum (map (λ i, to_R (mass_of bodies i) *
                  (to_R (comp pv (4 * i)) * newton_accel 2 pv bodies i -
                   to_R (comp pv (4 * i + 2)) * newton_accel 0 pv bodies i))%R
            (seq 0 (length bodies))) = 0%R.
Proof.
  rewrite <- (Rsum_antisymmetric
                (λ i j, to_R (mass_of bodies i) *
                        (to_R (comp pv (4 * i)) * newton_term 2 pv bodies i j -
                         to_R (comp pv (4 * i + 2)) * newton_term 0 pv bodies i j))%R
                (seq 0 (length bodies)))
    by (intros i j; apply newton_moment_antisymmetric).
  apply Rsum_ext. intros i _. unfold newton_accel.
  rewrite !Rsum_filter_ne by apply newton_term_self.
  by rewrite <- !Rsum_scale, <- Rsum_minus, <- Rsum_scale.
Qed.
End angular.

(** X20.  The forces [n_body_func] computes are central: for bodies with
    real masses and a State Vector of reals with pairwise distinct positions,
    the accelerations it returns leave the total angular momentum about the
    origin unchanged, the sum over the bodies of [mass * (x * ay - y * ax)]
    being exactly zero. *)
Theorem n_body_func_angular_momentum {N} (t : time) (pos_vel_array : list num)
    (bodies : list (Body.t num N)) :
  state_vector (length bodies) pos_vel_array →
  real_masses bodies →
  pairwise_distinct (length bodies) pos_vel_array →
  ∃ d, n_body_func t pos_vel_array bodies = Ok d ∧
       angular_momentum_rate bodies pos_vel_array d = 0%R.
Proof.
  intros Hsv Hm Hdist. pose proof Hsv as [Hlen Hfin].
  exists (derivative pos_vel_array bodies).
  split; [by apply n_body_func_derivative|].
  unfold angular_momentum_rate.
  rewrite <- (newton_angular_momentum pos_vel_array bodies).
  apply Rsum_ext. intros i Hi%elem_of_seq.
  destruct (derivative_velocity pos_vel_array bodies i) as [H1 H3]; [lia|].
  rewrite accel_newton in H1, H3 by (done || lia). cbn [fst snd] in H1, H3.
  unfold comp at 2 4. by rewrite H1, H3.
Qed.

Lemma n_body_func_angular_momentum_witness :
  ∃ d, n_body_func 0 pair_state pair = Ok d ∧
       angular_momentum_rate pair pair_state d = 0%R.
Proof.
  apply (n_body_func_angular_momentum 0%R pair_state pair).
  - exact pair_state_vector.
  - exact pair_real_masses.
  - exact pair_distinct.
Defined.
